(** * TicketClassifierAgent: the ingestion, persistence and display pipeline

    A shallow embedding of [src/main.py] and [src/display/table_display.py].

    - Python [str] values are lists of Unicode code points.
    - The case mappings and character classes of CPython's Unicode database
      are an interface ([Unicode]); the functions are written over any
      implementation of it, and an ASCII instance runs them on tickets such
      as the built-in samples.
    - Floats are IEEE 754 binary64 values ([spec_float] at precision 53).
    - The relational store is two tables and their id sequences, statements
      are state transformers that may raise, and [transaction] restores the
      tables when its body raises.
    - [print] calls to standard output are left out, and [console.print]
      is recorded as what it was given. A run in which the stream, the
      driver or [rich] refuses a text raises where the model goes on, so
      what is said of [main] and of the display is said of the runs that
      return, or of what was printed. *)

From Stdlib Require Import ZArith NArith List Bool String Ascii Lia.
From Stdlib Require Import Permutation Sorted DecimalString.
From Stdlib Require Import Floats.SpecFloat.
Import ListNotations.

Local Open Scope Z_scope.

(* ===================================================================== *)
(** * Part I. Definitions                                                  *)
(* ===================================================================== *)

(** ** Python strings *)

Module Py.

(** A character is its code point. *)
Definition char := N.
Definition str := list char.

(** [lit "abc"] is the Python literal ['abc'] (ASCII literals only). *)
Definition lit (s : string) : str :=
  List.map N_of_ascii (list_ascii_of_string s).

Definition len {A} (s : list A) : Z := Z.of_nat (List.length s).

Definition str_eqb (a b : str) : bool :=
  if list_eq_dec N.eq_dec a b then true else false.

(** [s[:k]] and [s[k:]]: a negative index counts from the end, and an
    index outside the string is clamped. *)
Definition clamp {A} (s : list A) (k : Z) : nat :=
  if k <? 0 then Z.to_nat (Z.max 0 (len s + k)) else Z.to_nat k.

Definition slice_to {A} (s : list A) (k : Z) : list A := firstn (clamp s k) s.
Definition slice_from {A} (s : list A) (k : Z) : list A := skipn (clamp s k) s.

(** [s.split(sep)] for a one-character separator. *)
Fixpoint split (sep : char) (s : str) : list str :=
  match s with
  | [] => [[]]
  | c :: s' =>
      if N.eqb c sep then [] :: split sep s'
      else match split sep s' with
           | l :: ls => (c :: l) :: ls
           | [] => [[c]]
           end
  end.

(** [sep.join(parts)]. *)
Fixpoint join (sep : str) (parts : list str) : str :=
  match parts with
  | [] => []
  | [p] => p
  | p :: ps => p ++ sep ++ join sep ps
  end.

Fixpoint startswith (p s : str) : bool :=
  match p, s with
  | [], _ => true
  | _ :: _, [] => false
  | a :: p', b :: s' => N.eqb a b && startswith p' s'
  end.

(** [needle in hay]. *)
Fixpoint contains (needle hay : str) : bool :=
  startswith needle hay ||
  match hay with
  | [] => false
  | _ :: hay' => contains needle hay'
  end.

(** [hay.find(needle)]: the lowest index of an occurrence, [-1] if none. *)
Fixpoint find_from (needle hay : str) (i : Z) : Z :=
  if startswith needle hay then i
  else match hay with
       | [] => -1
       | _ :: hay' => find_from needle hay' (i + 1)
       end.

Definition find (hay needle : str) : Z := find_from needle hay 0.

(** [str(n)] for an integer. *)
Definition str_of_int (n : Z) : str := lit (NilZero.string_of_int (Z.to_int n)).

(** [s.replace(a, b)] for one-character [a] and [b]. *)
Definition replace (a b : char) (s : str) : str :=
  List.map (fun c => if N.eqb c a then b else c) s.

(** The part of CPython's Unicode database the program consults:
    [str.lower], [str.upper], [str.title], [str.isspace] on one character
    and [str.isalnum] on one character. *)
Class Unicode := {
  lower : str -> str;
  upper : str -> str;
  title : str -> str;
  isspace : char -> bool;
  isalnum : char -> bool
}.

Section Strip.
Context {U : Unicode}.

Fixpoint lstrip (s : str) : str :=
  match s with
  | c :: s' => if isspace c then lstrip s' else s
  | [] => []
  end.

Definition rstrip (s : str) : str := rev (lstrip (rev s)).

(** [s.strip()] *)
Definition strip (s : str) : str := rstrip (lstrip s).
End Strip.

(** [x or d] for [x] that is [None] or a string: [None] and [''] are
    falsy. *)
Definition or_else (x : option str) (d : str) : str :=
  match x with
  | Some (c :: s) => c :: s
  | _ => d
  end.

(** *** The ASCII instance *)

Definition is_upper_ascii (c : char) : bool := (65 <=? c)%N && (c <=? 90)%N.
Definition is_lower_ascii (c : char) : bool := (97 <=? c)%N && (c <=? 122)%N.
Definition is_digit_ascii (c : char) : bool := (48 <=? c)%N && (c <=? 57)%N.

Definition lower_ascii (c : char) : char :=
  if is_upper_ascii c then (c + 32)%N else c.
Definition upper_ascii (c : char) : char :=
  if is_lower_ascii c then (c - 32)%N else c.

(** [title]: the first cased letter of each run of letters is upper-cased,
    the following ones lower-cased. *)
Fixpoint title_ascii (prev_cased : bool) (s : str) : str :=
  match s with
  | [] => []
  | c :: s' =>
      let cased := is_upper_ascii c || is_lower_ascii c in
      (if prev_cased then lower_ascii c else upper_ascii c)
        :: title_ascii cased s'
  end.

(** Whitespace below 128: TAB, LF, VT, FF, CR, FS, GS, RS, US, SPACE. *)
Definition isspace_ascii (c : char) : bool :=
  ((9 <=? c)%N && (c <=? 13)%N) || ((28 <=? c)%N && (c <=? 32)%N).

Definition isalnum_ascii (c : char) : bool :=
  is_upper_ascii c || is_lower_ascii c || is_digit_ascii c.

(** Agrees with CPython on every string of code points below 128; code
    points from 128 on are treated as caseless, non-space and
    non-alphanumeric. *)
Definition ascii_unicode : Unicode := {|
  lower := List.map lower_ascii;
  upper := List.map upper_ascii;
  title := title_ascii false;
  isspace := isspace_ascii;
  isalnum := isalnum_ascii
|}.

End Py.

Import Py.

(** ** The [re] module: a backtracking matcher

    The combinators are written in continuation-passing style. A
    continuation receives the character before the current position (for
    [\b]) and the rest of the subject, and answers with the text it
    matched. Greedy repetition first tries to take one more character and
    falls back to the continuation when that fails, which is the order of
    CPython's matcher. *)

Module Re.

Definition cont := option char -> str -> option str.

(** The pattern is exhausted: the match ends here. *)
Definition done : cont := fun _ _ => Some [].

(** One character of the class [cls]. *)
Definition one (cls : char -> bool) (k : cont) : cont :=
  fun _ s =>
    match s with
    | c :: s' => if cls c then option_map (cons c) (k (Some c) s') else None
    | [] => None
    end.

(** [cls*], greedy. *)
Fixpoint star (cls : char -> bool) (k : cont) (prev : option char) (s : str)
  : option str :=
  match s with
  | c :: s' =>
      if cls c then
        match star cls k (Some c) s' with
        | Some r => Some (c :: r)
        | None => k prev s
        end
      else k prev s
  | [] => k prev s
  end.

(** [cls+] and [cls{2,}], greedy. *)
Definition plus (cls : char -> bool) (k : cont) : cont := one cls (star cls k).
Definition two_or_more (cls : char -> bool) (k : cont) : cont :=
  one cls (one cls (star cls k)).

Section Boundary.
Context {U : Unicode}.

(** [\w] for a [str] pattern: alphanumeric or underscore. *)
Definition is_word (c : char) : bool := isalnum c || N.eqb c 95.

Definition is_word_opt (c : option char) : bool :=
  match c with
  | Some c => is_word c
  | None => false
  end.

(** [\b]: exactly one of the two neighbours is a word character; the
    ends of the subject count as non-word. *)
Definition at_boundary (prev : option char) (s : str) : bool :=
  xorb (is_word_opt prev) (is_word_opt (hd_error s)).

Definition boundary (k : cont) : cont :=
  fun prev s => if at_boundary prev s then k prev s else None.
End Boundary.

(** [re.findall(p, s)] for a pattern [p] without groups that never matches
    the empty string: [skip] counts the characters of the last match that
    are still to be passed over. *)
Fixpoint findall_from (p : cont) (skip : nat) (prev : option char) (s : str)
  : list str :=
  match skip with
  | S skip' =>
      match s with
      | c :: s' => findall_from p skip' (Some c) s'
      | [] => []
      end
  | O =>
      match p prev s with
      | Some m =>
          m :: match s with
               | c :: s' => findall_from p (List.length m - 1) (Some c) s'
               | [] => []
               end
      | None =>
          match s with
          | c :: s' => findall_from p O (Some c) s'
          | [] => []
          end
      end
  end.

Definition findall (p : cont) (s : str) : list str := findall_from p O None s.

End Re.

(** ** Exceptions and the relational store *)

Inductive exn :=
| AgentError                        (* raised by [agent.run] *)
| InvalidTextRepresentation         (* a string that is no label of the enum *)
| ForeignKeyViolation
| InvalidRowCountInLimitClause      (* a negative LIMIT *)
| DataError                         (* an argument outside its SQL type *)
| ValueError                        (* [int(nan)] *)
| OverflowError.                    (* [int(inf)] *)

Inductive outcome (A : Type) :=
| Ok (a : A)
| Raise (e : exn).
Arguments Ok {A} a.
Arguments Raise {A} e.

Module Store.

Inductive category_enum := billing | technical | feature_request | general.
Inductive priority_enum := low | medium | high | critical.

Definition category_label (c : category_enum) : str :=
  match c with
  | billing => lit "billing"
  | technical => lit "technical"
  | feature_request => lit "feature_request"
  | general => lit "general"
  end.

Definition priority_label (p : priority_enum) : str :=
  match p with
  | low => lit "low"
  | medium => lit "medium"
  | high => lit "high"
  | critical => lit "critical"
  end.

(** [$4::category_enum] and [$5::priority_enum]: only the exact labels are
    accepted. *)
Definition cast_category (s : str) : option category_enum :=
  List.find (fun c => str_eqb (category_label c) s)
    [billing; technical; feature_request; general].

Definition cast_priority (s : str) : option priority_enum :=
  List.find (fun p => str_eqb (priority_label p) s)
    [low; medium; high; critical].

(** Modelled from the spec: the schema, which [init_database] of
    [src/database/connection.py] creates and which is not part of the
    sources at hand. Section 6 gives it as
    [customers(id, email UNIQUE, name)] and
    [tickets(id, customer_id REFERENCES customers, raw_content, summary,
    category, priority, sentiment_score, created_at DEFAULT now())], with
    surrogate keys drawn from one sequence per table. *)
Record customers_row := {
  c_id : Z;
  c_email : str;
  c_name : str
}.

Record tickets_row := {
  t_id : Z;
  t_customer_id : Z;
  t_raw_content : str;
  t_summary : str;
  t_category : category_enum;
  t_priority : priority_enum;
  t_sentiment_score : spec_float;
  t_created_at : Z
}.

Record db := {
  customers : list customers_row;
  tickets : list tickets_row;
  customers_id_seq : Z;
  tickets_id_seq : Z
}.

Definition empty_db : db :=
  {| customers := []; tickets := []; customers_id_seq := 1; tickets_id_seq := 1 |}.

(** A statement reads and writes the store and returns or raises. *)
Definition sql (A : Type) := db -> outcome A * db.

Definition ret {A} (a : A) : sql A := fun d => (Ok a, d).

Definition bind {A B} (m : sql A) (f : A -> sql B) : sql B :=
  fun d =>
    match m d with
    | (Ok a, d') => f a d'
    | (Raise e, d') => (Raise e, d')
    end.

Definition throw {A} (e : exn) : sql A := fun d => (Raise e, d).

(** [async with conn.transaction()]: commit when the body returns; when it
    raises, restore both tables and raise again. Sequences are not
    transactional: the values drawn inside the block stay drawn. *)
Definition transaction {A} (body : sql A) : sql A :=
  fun d =>
    match body d with
    | (Ok a, d') => (Ok a, d')
    | (Raise e, d') =>
        (Raise e,
         {| customers := customers d;
            tickets := tickets d;
            customers_id_seq := customers_id_seq d';
            tickets_id_seq := tickets_id_seq d' |})
    end.

Definition has_email (email : str) (c : customers_row) : bool :=
  str_eqb (c_email c) email.

(** [SET name = EXCLUDED.name] on the row in conflict. *)
Definition set_name (email name : str) (c : customers_row) : customers_row :=
  if has_email email c
  then {| c_id := c_id c; c_email := c_email c; c_name := name |}
  else c.

(** [INSERT INTO customers (email, name) VALUES ($1, $2)
     ON CONFLICT (email) DO UPDATE SET name = EXCLUDED.name RETURNING id].
    The default of [id] is drawn from the sequence before the conflict is
    detected. *)
Definition upsert_customer (email name : str) : sql Z :=
  fun d =>
    let fresh := customers_id_seq d in
    match List.find (has_email email) (customers d) with
    | Some c =>
        (Ok (c_id c),
         {| customers := List.map (set_name email name) (customers d);
            tickets := tickets d;
            customers_id_seq := fresh + 1;
            tickets_id_seq := tickets_id_seq d |})
    | None =>
        (Ok fresh,
         {| customers :=
              customers d ++
              [{| c_id := fresh; c_email := email; c_name := name |}];
            tickets := tickets d;
            customers_id_seq := fresh + 1;
            tickets_id_seq := tickets_id_seq d |})
    end.

(** [INSERT INTO tickets (customer_id, raw_content, summary, category,
     priority, sentiment_score)
     VALUES ($1, $2, $3, $4::category_enum, $5::priority_enum, $6)
     RETURNING id], at time [now]. *)
Definition insert_ticket (now : Z) (customer_id : Z)
    (raw_content summary category priority : str)
    (sentiment_score : spec_float) : sql Z :=
  fun d =>
    match cast_category category, cast_priority priority with
    | Some cat, Some pri =>
        let fresh := tickets_id_seq d in
        let d' := {| customers := customers d;
                     tickets := tickets d;
                     customers_id_seq := customers_id_seq d;
                     tickets_id_seq := fresh + 1 |} in
        if existsb (fun c => c_id c =? customer_id) (customers d) then
          (Ok fresh,
           {| customers := customers d;
              tickets :=
                tickets d ++
                [{| t_id := fresh; t_customer_id := customer_id;
                    t_raw_content := raw_content; t_summary := summary;
                    t_category := cat; t_priority := pri;
                    t_sentiment_score := sentiment_score;
                    t_created_at := now |}];
              customers_id_seq := customers_id_seq d;
              tickets_id_seq := fresh + 1 |})
        else (Raise ForeignKeyViolation, d')
    | _, _ => (Raise InvalidTextRepresentation, d)
    end.

(** One row of the recency query, as the dictionary [dict(row)]. *)
Record recent_row := {
  id : Z;
  summary : str;
  category : str;
  priority : str;
  sentiment_score : spec_float;
  created_at : Z;
  customer_name : str;
  customer_email : str
}.

Definition joined (t : tickets_row) (c : customers_row) : recent_row :=
  {| id := t_id t;
     summary := t_summary t;
     category := category_label (t_category t);
     priority := priority_label (t_priority t);
     sentiment_score := t_sentiment_score t;
     created_at := t_created_at t;
     customer_name := c_name c;
     customer_email := c_email c |}.

(** [FROM tickets t JOIN customers c ON t.customer_id = c.id] *)
Definition join_customers (d : db) : list recent_row :=
  flat_map
    (fun t =>
       List.map (joined t)
         (filter (fun c => t_customer_id t =? c_id c) (customers d)))
    (tickets d).

(** [ORDER BY t.created_at DESC], as a stable insertion sort. The engine
    leaves the order of rows with equal timestamps open, and may choose
    it anew for each statement; [Terms.may_answer] describes every order
    it may choose. *)
Fixpoint insert_desc (r : recent_row) (l : list recent_row) : list recent_row :=
  match l with
  | [] => [r]
  | x :: l' =>
      if created_at x <=? created_at r then r :: l
      else x :: insert_desc r l'
  end.

Definition order_by_created_at_desc (l : list recent_row) : list recent_row :=
  fold_right insert_desc [] l.

(** [a] may stand before [b] in the result. *)
Definition newer_first (a b : recent_row) : Prop := created_at b <= created_at a.

(** [LIMIT $1]: the parameter is a [bigint]. The driver refuses an
    integer outside the 64-bit range when it encodes the argument, before
    the statement reaches the engine; a negative count is an error of the
    engine. *)
Definition limit_rows {A} (n : Z) (l : list A) : outcome (list A) :=
  if (n <? - 2 ^ 63) || (2 ^ 63 <=? n) then Raise DataError
  else if n <? 0 then Raise InvalidRowCountInLimitClause
  else Ok (firstn (Z.to_nat n) l).

(** The constraints of the schema: primary keys drawn from the
    sequences, [email UNIQUE] and [customer_id REFERENCES customers]. *)
Record consistent (d : db) : Prop := {
  customers_below_seq :
    forall c, In c (customers d) -> c_id c < customers_id_seq d;
  customers_pkey : NoDup (List.map c_id (customers d));
  customers_email_key : NoDup (List.map c_email (customers d));
  tickets_below_seq :
    forall t, In t (tickets d) -> t_id t < tickets_id_seq d;
  tickets_pkey : NoDup (List.map t_id (tickets d));
  tickets_customer_fkey :
    forall t, In t (tickets d) ->
      In (t_customer_id t) (List.map c_id (customers d))
}.

End Store.

(** ** [src/main.py]: customer extraction *)

Module Main.

Section Extract.
Context {U : Unicode}.

(** [[A-Za-z0-9._%+-]] *)
Definition local_char (c : char) : bool :=
  is_upper_ascii c || is_lower_ascii c || is_digit_ascii c
  || N.eqb c 46 || N.eqb c 95 || N.eqb c 37 || N.eqb c 43 || N.eqb c 45.

(** [[A-Za-z0-9.-]] *)
Definition domain_char (c : char) : bool :=
  is_upper_ascii c || is_lower_ascii c || is_digit_ascii c
  || N.eqb c 46 || N.eqb c 45.

(** [[A-Z|a-z]]: inside a class the bar is a literal character. *)
Definition tld_char (c : char) : bool :=
  is_upper_ascii c || N.eqb c 124 || is_lower_ascii c.

Definition is_at (c : char) : bool := N.eqb c 64.
Definition is_dot (c : char) : bool := N.eqb c 46.

(** [r'\b[A-Za-z0-9._%+-]+@[A-Za-z0-9.-]+\.[A-Z|a-z]{2,}\b'] *)
Definition email_pattern : Re.cont :=
  Re.boundary
    (Re.plus local_char
      (Re.one is_at
        (Re.plus domain_char
          (Re.one is_dot
            (Re.two_or_more tld_char
              (Re.boundary Re.done)))))).

Record customer_info := { email : str; name : str }.

(** The [for] loop over the lines: the name taken from the first line
    that contains ['name:'] once lower-cased, [None] when the loop ends
    without a [break]. *)
Fixpoint scan_name (lines : list str) : option str :=
  match lines with
  | [] => None
  | line :: rest =>
      if contains (lit "name:") (lower line) then
        let idx := find (lower line) (lit "name:") in
        if negb (idx =? -1) then Some (strip (slice_from line (idx + 5)))
        else scan_name rest
      else scan_name rest
  end.

Definition extract_customer_info (ticket_content : str) : customer_info :=
  let matches := Re.findall email_pattern ticket_content in
  let email :=
    match matches with
    | m :: _ => Some m
    | [] => None
    end in
  let name := scan_name (split 10%N ticket_content) in
  {| email := or_else email (lit "unknown@example.com");
     name := or_else name (lit "Unknown Customer") |}.
End Extract.

(** *** The sample tickets *)

Definition dq : str := [34%N].
Definition text_of_lines (lines : list str) : str := join [10%N] lines.

Definition sample_1 : str :=
  text_of_lines [
    [];
    lit "Subject: Billing Error - Charged Twice This Month!";
    [];
    lit "Hello,";
    [];
    lit "I just checked my bank statement and noticed I was charged "
      ++ lit "TWICE for my monthly subscription!";
    lit "This is completely unacceptable. I've been a loyal customer "
      ++ lit "for over 2 years and this has never";
    lit "happened before.";
    [];
    lit "I need this fixed IMMEDIATELY and I want a full refund for "
      ++ lit "the duplicate charge. This better";
    lit "not happen again or I'm canceling my subscription.";
    [];
    lit "Email: sarah.johnson@email.com";
    lit "Name: Sarah Johnson";
    [];
    lit "Please respond ASAP.";
    [];
    lit "Frustrated,";
    lit "Sarah Johnson";
    []
  ].

Definition sample_2 : str :=
  text_of_lines [
    [];
    lit "Subject: Cannot Login to My Account";
    [];
    lit "Hi Support Team,";
    [];
    lit "I've been trying to log into my account for the past hour "
      ++ lit "but keep getting an "
      ++ dq
      ++ lit "Invalid credentials"
      ++ dq;
    lit "error. I'm 100% sure I'm using the correct password. I even "
      ++ lit "tried the forgot password link but";
    lit "never received the reset email.";
    [];
    lit "This is preventing me from accessing important documents I "
      ++ lit "need for work today. Can someone please";
    lit "help me regain access as soon as possible?";
    [];
    lit "Email: michael.chen@techcorp.com";
    lit "Name: Michael Chen";
    [];
    lit "Thanks,";
    lit "Michael";
    []
  ].

Definition sample_3 : str :=
  text_of_lines [
    [];
    lit "Subject: Feature Request - Dark Mode";
    [];
    lit "Hello!";
    [];
    lit "I absolutely love your application and use it every day. "
      ++ lit "However, I work late nights and the bright";
    lit "white interface can be quite straining on my eyes. Would it "
      ++ lit "be possible to add a dark mode option?";
    [];
    lit "I know many users have been asking for this feature on your "
      ++ lit "forums. It would be a great quality of";
    lit "life improvement!";
    [];
    lit "Email: emma.davis@design.io";
    lit "Name: Emma Davis";
    [];
    lit "Keep up the great work!";
    lit "Emma";
    []
  ].

Definition sample_4 : str :=
  text_of_lines [
    [];
    lit "Subject: Question About Pricing Plans";
    [];
    lit "Hi there,";
    [];
    lit "I'm currently on the Basic plan but considering upgrading "
      ++ lit "to Pro. Could you help me understand the";
    lit "differences between the two plans? Specifically, I'm "
      ++ lit "interested in knowing about storage limits and";
    lit "the number of team members I can add.";
    [];
    lit "Also, if I upgrade mid-month, will I be charged the full "
      ++ lit "amount or prorated?";
    [];
    lit "Email: alex.rivera@startup.com";
    lit "Name: Alex Rivera";
    [];
    lit "Thank you!";
    lit "Alex";
    []
  ].

Definition sample_5 : str :=
  text_of_lines [
    [];
    lit "Subject: Thank You!";
    [];
    lit "Dear Support Team,";
    [];
    lit "I just wanted to take a moment to thank you for the "
      ++ lit "excellent customer service I received yesterday.";
    lit "Jessica helped me resolve my technical issue within minutes "
      ++ lit "and was incredibly patient and professional.";
    [];
    lit "It's rare to find such dedicated support these days. You "
      ++ lit "have a great team!";
    [];
    lit "Email: olivia.martinez@email.com";
    lit "Name: Olivia Martinez";
    [];
    lit "Best regards,";
    lit "Olivia";
    []
  ].

Definition SAMPLE_TICKETS : list str :=
  [sample_1; sample_2; sample_3; sample_4; sample_5].

(** [random.choice(seq)] is [seq[i]] for the index [i] below [len(seq)]
    that the generator yields; [draw] is the generator's value. *)
Definition random_choice (seq : list str) (draw : nat) : str :=
  nth (draw mod List.length seq) seq [].

Section Input.
Context {U : Unicode}.

(** The value of the generator when the module is imported. *)
Variable draw : nat.

(** Module-level: evaluated once, at import. *)
Definition SAMPLE_TICKET : str := random_choice SAMPLE_TICKETS draw.

(** The [while True] loop of [get_interactive_ticket]. Standard input is
    the list of the lines still to be read; [input()] on the empty list
    raises [EOFError], which ends the loop. *)
Fixpoint read_until_end (stdin : list str) (lines : list str)
  : list str * list str :=
  match stdin with
  | [] => (lines, [])
  | line :: stdin' =>
      if str_eqb (upper (strip line)) (lit "END") then (lines, stdin')
      else read_until_end stdin' (lines ++ [line])
  end.

Definition get_interactive_ticket (stdin : list str) : str * list str :=
  let (lines, stdin') := read_until_end stdin [] in
  (join [10%N] lines, stdin').

(** [argv] is [sys.argv]; the result is paired with what is left of
    standard input. *)
Definition get_ticket_input (argv : list str) (stdin : list str)
  : str * list str :=
  match argv with
  | _ :: arg1 :: rest =>
      if str_eqb arg1 (lit "--interactive") || str_eqb arg1 (lit "-i") then
        get_interactive_ticket stdin
      else if str_eqb arg1 (lit "--all") || str_eqb arg1 (lit "-a") then
        (lit "ALL_SAMPLES", stdin)
      else (join (lit " ") (arg1 :: rest), stdin)
  | _ => (SAMPLE_TICKET, stdin)
  end.
End Input.

(** *** Processing one ticket *)

(** [result.output] of the agent. *)
Record classification := {
  summary : str;
  category : str;
  priority : str;
  sentiment_score : spec_float
}.

Section Process.
Context {U : Unicode}.

(** [agent.run(prompt, deps=pool)]: the classification service, which
    returns a classification or raises. *)
Variable agent : str -> outcome classification.

(** The time [now()] has when the transaction runs. *)
Variable now : Z.

Definition prompt (ticket_content : str) : str :=
  lit "Analyze this customer support ticket:" ++ [10%N; 10%N]
    ++ ticket_content.

(** The body of [async with conn.transaction()]. *)
Definition save (info : customer_info) (ticket_content : str)
    (output : classification) : Store.sql (Z * Z) :=
  Store.bind (Store.upsert_customer (email info) (name info))
    (fun customer_id =>
       Store.bind
         (Store.insert_ticket now customer_id ticket_content
            (summary output) (category output) (priority output)
            (sentiment_score output))
         (fun ticket_id => Store.ret (customer_id, ticket_id))).

(** The call on the store: what it returns or raises, and the store it
    leaves. The [print] calls write progress to standard output and are
    not part of the model, nor are the checks the driver and the engine
    make on a text (a lone surrogate, U+0000) and the loss of the
    connection: a run that fails on one of them raises before the
    transaction commits, and leaves the tables as they were. *)
Definition process_single_ticket (ticket_content : str) : Store.sql Z :=
  let customer_info := extract_customer_info ticket_content in
  match agent (prompt ticket_content) with
  | Raise e => Store.throw e
  | Ok output =>
      Store.bind
        (Store.transaction (save customer_info ticket_content output))
        (fun ids => Store.ret (snd ids))
  end.
End Process.

End Main.

(** ** [src/display/table_display.py] *)

Module Display.

Import Store.

(** *** Floats *)

Definition prec := 53.
Definition emax := 1024.
Definition float := spec_float.

(** The literals [0.4], [0.6] and the float [100.0] that [score * 100]
    converts its right operand to. *)
Definition float_0_4 : float := S754_finite false 0x1999999999999a (-54).
Definition float_0_6 : float := S754_finite false 0x13333333333333 (-53).
Definition float_100 : float := S754_finite false 0x19000000000000 (-46).

Definition float_0 : float := S754_zero false.
Definition float_1 : float := S754_finite false 0x10000000000000 (-52).

Definition float_lt (x y : float) : bool := SFltb x y.
Definition float_le (x y : float) : bool := SFleb x y.
Definition float_mul (x y : float) : float := SFmul prec emax x y.

(** [int(x)]: truncation toward zero; [nan] and the infinities raise. *)
Definition int_of_float (x : float) : outcome Z :=
  match x with
  | S754_zero _ => Ok 0
  | S754_finite s m e => Ok (cond_Zopp s (Z.shiftl (Zpos m) e))
  | S754_infinity _ => Raise OverflowError
  | S754_nan => Raise ValueError
  end.

(** The float that a decimal literal with value [n / d] denotes: the
    binary64 number nearest to the quotient. *)
Definition float_of_ratio (n d : Z) : float :=
  SFdiv prec emax (binary_normalize prec emax n 0 false)
                  (binary_normalize prec emax d 0 false).

(** A sentiment score as the data model has it: a binary64 value between
    [0.0] and [1.0]. *)
Definition in_unit_interval (x : float) : Prop :=
  valid_binary prec emax x = true /\
  float_le float_0 x = true /\ float_le x float_1 = true.

(** The largest integer that is not above the value of [x]. *)
Definition floor (x : float) : option Z :=
  match x with
  | S754_zero _ => Some 0
  | S754_finite s m e => Some (Z.shiftl (cond_Zopp s (Zpos m)) e)
  | _ => None
  end.

(** *** Colours and formats *)

(** [color_map.get(key, default)] on a dictionary written as its items. *)
Fixpoint dict_get (map : list (str * str)) (key : str) (default : str) : str :=
  match map with
  | [] => default
  | (k, v) :: map' => if str_eqb k key then v else dict_get map' key default
  end.

Section Formats.
Context {U : Unicode}.

Definition get_priority_color (priority : str) : str :=
  let color_map :=
    [(lit "critical", lit "bright_red");
     (lit "high", lit "red");
     (lit "medium", lit "yellow");
     (lit "low", lit "green")] in
  dict_get color_map (lower priority) (lit "white").

Definition get_category_color (category : str) : str :=
  let color_map :=
    [(lit "billing", lit "cyan");
     (lit "technical", lit "magenta");
     (lit "feature_request", lit "blue");
     (lit "general", lit "white")] in
  dict_get color_map (lower category) (lit "white").

Definition get_sentiment_color (score : float) : str :=
  if float_lt score float_0_4 then lit "red"
  else if float_lt score float_0_6 then lit "yellow"
  else lit "green".

(** The three indicators, as the code points of the source's literals:
    U+00F0 U+0178 U+02DC followed by U+017E, by nothing and by U+0160. *)
Definition emoji_negative : str := [0xF0; 0x178; 0x2DC; 0x17E]%N.
Definition emoji_neutral : str := [0xF0; 0x178; 0x2DC]%N.
Definition emoji_positive : str := [0xF0; 0x178; 0x2DC; 0x160]%N.

Definition get_sentiment_emoji (score : float) : str :=
  if float_lt score float_0_4 then emoji_negative
  else if float_lt score float_0_6 then emoji_neutral
  else emoji_positive.

Definition format_sentiment (score : float) : outcome str :=
  match int_of_float (float_mul score float_100) with
  | Raise e => Raise e
  | Ok percentage =>
      let emoji := get_sentiment_emoji score in
      Ok (str_of_int percentage ++ lit "% " ++ emoji)
  end.

Definition truncate_text (text : str) (max_length : Z) : str :=
  if len text <=? max_length then text
  else slice_to text (max_length - 3) ++ lit "...".

(** *** The recency query *)

(** A parameter with a default value: [None] when the caller leaves the
    argument out. *)
Definition or_default (arg : option Z) (default : Z) : Z :=
  match arg with
  | Some v => v
  | None => default
  end.

Definition fetch_recent_tickets (limit : option Z) (d : db)
  : outcome (list recent_row) :=
  let limit := or_default limit 5 in
  limit_rows limit (order_by_created_at_desc (join_customers d)).

(** *** The table *)

(** [rich.text.Text(plain, style=...)] *)
Record text := { plain : str; style : str }.

(** The arguments of one [table.add_row] call. *)
Record table_row := {
  cell_id : str;
  cell_customer : str;
  cell_summary : str;
  cell_category : text;
  cell_priority : text;
  cell_sentiment : text;
  row_style : option str
}.

(** What [console.print] is given. *)
Inductive printed :=
| Blank
| Panel (body title border_style : str)
| Table (title : str) (rows : list table_row)
| ErrorLine (e : exn).

(** The style that marks the highlighted row. *)
Definition highlight : option str := Some (lit "on dark_green").


(** [highlight_id and ticket['id'] == highlight_id], as a condition:
    [None] and [0] are falsy. *)
Definition is_new (highlight_id : option Z) (ticket : recent_row) : bool :=
  match highlight_id with
  | None => false
  | Some h => negb (h =? 0) && (id ticket =? h)
  end.

(** The body of the [for ticket in tickets] loop. *)
Definition render_row (highlight_id : option Z) (ticket : recent_row)
  : outcome table_row :=
  let row_style :=
    if is_new highlight_id ticket then Some (lit "on dark_green") else None in
  let ticket_id := str_of_int (id ticket) in
  let customer := truncate_text (customer_name ticket) 15 in
  let summary := truncate_text (summary ticket) 45 in
  let category := category ticket in
  let category_color := get_category_color category in
  let category_text :=
    {| plain := title (replace 95%N 32%N category); style := category_color |} in
  let priority := priority ticket in
  let priority_color := get_priority_color priority in
  let priority_style :=
    if str_eqb (lower priority) (lit "critical")
    then priority_color ++ lit " bold" else priority_color in
  let priority_text := {| plain := upper priority; style := priority_style |} in
  let sentiment_score := sentiment_score ticket in
  match format_sentiment sentiment_score with
  | Raise e => Raise e
  | Ok sentiment_str =>
      let sentiment_color := get_sentiment_color sentiment_score in
      let sentiment_text := {| plain := sentiment_str; style := sentiment_color |} in
      Ok {| cell_id := ticket_id;
            cell_customer := customer;
            cell_summary := summary;
            cell_category := category_text;
            cell_priority := priority_text;
            cell_sentiment := sentiment_text;
            row_style := row_style |}
  end.

Fixpoint render_rows (highlight_id : option Z) (tickets : list recent_row)
  : outcome (list table_row) :=
  match tickets with
  | [] => Ok []
  | ticket :: rest =>
      match render_row highlight_id ticket with
      | Raise e => Raise e
      | Ok row =>
          match render_rows highlight_id rest with
          | Raise e => Raise e
          | Ok rows => Ok (row :: rows)
          end
      end
  end.

(** The [try] block of [display_recent_tickets] on the rows fetched. *)
Definition display_rows (highlight_id : option Z) (tickets : list recent_row)
  : outcome (list printed) :=
  match tickets with
  | [] =>
      Ok [Panel (lit "[yellow]No tickets found. Process your first ticket![/yellow]")
                (lit "Recent Tickets") (lit "yellow")]
  | _ :: _ =>
      match render_rows highlight_id tickets with
      | Raise e => Raise e
      | Ok rows =>
          Ok [Blank;
              Table (lit "[bold cyan]Recent Tickets (Last "
                       ++ str_of_int (len tickets) ++ lit ")[/bold cyan]") rows;
              Blank]
      end
  end.

(** The result is what was printed, and whether the call returned or
    raised again after printing the error line. [console.print] is taken
    to render what it is given. [rich] reads a [str] cell as console
    markup, and refuses a closing tag that has no opening tag: in such a
    run the first blank line is printed and the table is not. *)
Definition display_recent_tickets (limit : option Z) (highlight_id : option Z)
    (d : db) : list printed * outcome unit :=
  let limit := or_default limit 5 in
  let attempt :=
    match fetch_recent_tickets (Some limit) d with
    | Raise e => Raise e
    | Ok tickets => display_rows highlight_id tickets
    end in
  match attempt with
  | Ok out => (out, Ok tt)
  | Raise e => ([ErrorLine e], Raise e)
  end.
End Formats.

End Display.

(** ** [src/main.py]: the batch loop and [main] *)

Module App.

Import Store Main Display.

(** The connection pool of a run: [pool = None], the pool that
    [create_pool] returned, and the pool after [close_pool]. *)
Inductive pool_state := NoPool | PoolOpen | PoolClosed.

(** What a run of [main] leaves behind: what [console.print] was given,
    whether [main] returned or raised, the database and the pool. *)
Record run := {
  console : list printed;
  result : outcome unit;
  database : db;
  pool : pool_state
}.

Section App.
Context {U : Unicode}.

(** The value of the generator at import, for [SAMPLE_TICKET]. *)
Variable draw : nat.

(** The collaborators that are imported from modules outside the sources
    at hand: [Settings.from_env()], [create_pool(dsn)],
    [init_database(pool)] on the database as it is, and
    [create_ticket_agent(key)]. Each returns or raises. *)
Variable from_env : outcome unit.
Variable create_pool : outcome unit.
Variable init_database : db -> outcome db.
Variable create_ticket_agent : outcome (str -> outcome classification).

(** [clock i] is the time [now()] has in the transaction of the ticket
    processed at position [i] of the run. *)
Variable clock : nat -> Z.

(** The loop [for i, ticket_content in enumerate(SAMPLE_TICKETS, 1)],
    from position [i] on, with [last_ticket_id] as it stands. *)
Fixpoint process_all (agent : str -> outcome classification)
    (tickets : list str) (i : nat) (last_ticket_id : option Z)
  : sql (option Z) :=
  match tickets with
  | [] => ret last_ticket_id
  | ticket_content :: rest =>
      bind (process_single_ticket agent (clock i) ticket_content)
        (fun ticket_id => process_all agent rest (S i) (Some ticket_id))
  end.

(** Step 5 and the display that follows it. *)
Definition process_and_display (agent : str -> outcome classification)
    (ticket_input : str) (d : db) : list printed * outcome unit * db :=
  if str_eqb ticket_input (lit "ALL_SAMPLES") then
    match process_all agent SAMPLE_TICKETS 0 None d with
    | (Raise e, d') => ([], Raise e, d')
    | (Ok last_ticket_id, d') =>
        let (out, r) := display_recent_tickets (Some 5) last_ticket_id d' in
        (out, r, d')
    end
  else
    match process_single_ticket agent (clock 0) ticket_input d with
    | (Raise e, d') => ([], Raise e, d')
    | (Ok ticket_id, d') =>
        let (out, r) := display_recent_tickets (Some 5) (Some ticket_id) d' in
        (out, r, d')
    end.

(** The [finally] block: [if pool is not None: await close_pool(pool)]. *)
Definition cleanup (p : pool_state) : pool_state :=
  match p with
  | PoolOpen => PoolClosed
  | p => p
  end.

(** [main], on the command line [argv], the lines of standard input and
    the database as the run finds it. The [except] block prints the error
    and raises it again; the [finally] block runs on every path. *)
Definition main (argv : list str) (stdin : list str) (d : db) : run :=
  let (ticket_input, _) := get_ticket_input draw argv stdin in
  let '(out, r, d', p) :=
    match from_env with
    | Raise e => ([], Raise e, d, NoPool)
    | Ok _ =>
        match create_pool with
        | Raise e => ([], Raise e, d, NoPool)
        | Ok _ =>
            match init_database d with
            | Raise e => ([], Raise e, d, PoolOpen)
            | Ok d1 =>
                match create_ticket_agent with
                | Raise e => ([], Raise e, d1, PoolOpen)
                | Ok agent =>
                    let '(out, r, d2) :=
                      process_and_display agent ticket_input d1 in
                    (out, r, d2, PoolOpen)
                end
            end
        end
    end in
  {| console := out; result := r; database := d'; pool := cleanup p |}.

End App.

End App.

(** ** Vocabulary of the properties *)

Module Shape.

Import Main.

Section Shape.
Context {U : Unicode}.

(** The condition of the loop on one line: ['name:' in line.lower()]. *)
Definition mentions_name (line : str) : bool :=
  contains (lit "name:") (lower line).

(** The slice [line[idx + 5:]], with [idx] the index of ['name:'] in the
    lower-cased line. It is the text that follows the marker when
    lower-casing keeps the length of what stands before the marker. *)
Definition after_marker (line : str) : str :=
  slice_from line (find (lower line) (lit "name:") + 5).

(** The character before the position reached after reading [s], when
    [prev] was the character before [s]. *)
Definition last_char (prev : option char) (s : str) : option char :=
  fold_left (fun _ c => Some c) s prev.

(** The strings the pattern describes between its two [\b]: a non-empty
    local part, [@], a non-empty domain, a dot and at least two characters
    of the last class. *)
Definition email_shape (m : str) : Prop :=
  exists l d t,
    m = l ++ [64%N] ++ d ++ [46%N] ++ t /\
    l <> [] /\ forallb local_char l = true /\
    d <> [] /\ forallb domain_char d = true /\
    (2 <= List.length t)%nat /\ forallb tld_char t = true.

(** [m] occurs in [text] after [pre] and before [post] as a match of the
    pattern: it has the shape, and both ends are word boundaries. *)
Definition occurs_at (text pre m post : str) : Prop :=
  text = pre ++ m ++ post /\
  email_shape m /\
  Re.at_boundary (last_char None pre) (m ++ post) = true /\
  Re.at_boundary (last_char None (pre ++ m)) post = true.

End Shape.

End Shape.

(** ** The words of the specification *)

Module Spec.

(** A well-formed e-mail address, in the words of the specification: a
    local part, [@], and a domain with at least one dot in it. *)
Definition well_formed_address (m : str) : Prop :=
  exists local domain,
    m = local ++ [64%N] ++ domain /\ local <> [] /\ In 46%N domain.

(** The text holds [m]. *)
Definition holds (text m : str) : Prop :=
  exists pre post, text = pre ++ m ++ post.

End Spec.

(** ** Further vocabulary *)

Module Terms.

Import Store Main Display.

Section Terms.
Context {U : Unicode}.

(** The line that ends interactive entry: [line.strip().upper() == 'END']. *)
Definition is_end_marker (line : str) : bool :=
  str_eqb (upper (strip line)) (lit "END").

(** The tier of a score: 0 negative, 1 neutral, 2 positive. *)
Definition tier (score : float) : nat :=
  if float_lt score float_0_4 then 0%nat
  else if float_lt score float_0_6 then 1%nat
  else 2%nat.

(** The first and the last character of a string. *)
Definition first_char (s : str) : option char := hd_error s.
Definition final_char (s : str) : option char := hd_error (rev s).

Definition is_space_opt (c : option char) : bool :=
  match c with
  | Some c => isspace c
  | None => false
  end.

End Terms.


(** What the engine may answer to the recency query with [LIMIT n]: the
    first [n] of the joined rows in some descending order of
    [created_at]. The order of rows with equal timestamps is the engine's
    choice, and may differ from one statement to the next. *)
Definition may_answer (n : Z) (d : db) (rows : list recent_row) : Prop :=
  exists sorted,
    Permutation sorted (join_customers d) /\
    StronglySorted newer_first sorted /\
    rows = firstn (Z.to_nat n) sorted.

End Terms.

(** ** Stores and a classifier to run the functions on *)

Module Fixtures.

Import Store.

(** One customer with two tickets, the second the more recent. *)
Definition two_tickets : db :=
  {| customers :=
       [{| c_id := 1; c_email := lit "ann@example.com"; c_name := lit "Ann" |}];
     tickets :=
       [{| t_id := 1; t_customer_id := 1;
           t_raw_content := lit "first"; t_summary := lit "one";
           t_category := billing; t_priority := low;
           t_sentiment_score := Display.float_of_ratio 15 100;
           t_created_at := 10 |};
        {| t_id := 2; t_customer_id := 1;
           t_raw_content := lit "second"; t_summary := lit "two";
           t_category := general; t_priority := critical;
           t_sentiment_score := Display.float_of_ratio 85 100;
           t_created_at := 20 |}];
     customers_id_seq := 2;
     tickets_id_seq := 3 |}.

(** The same store with a third, most recent ticket whose score is NaN. *)
Definition with_nan_score : db :=
  {| customers := customers two_tickets;
     tickets :=
       tickets two_tickets ++
       [{| t_id := 3; t_customer_id := 1;
           t_raw_content := lit "third"; t_summary := lit "three";
           t_category := technical; t_priority := high;
           t_sentiment_score := S754_nan;
           t_created_at := 30 |}];
     customers_id_seq := 2;
     tickets_id_seq := 4 |}.

(** A classifier that answers every ticket alike. *)
Definition billing_agent (_ : str) : outcome Main.classification :=
  Ok {| Main.summary := lit "Duplicate billing charge";
        Main.category := lit "billing";
        Main.priority := lit "critical";
        Main.sentiment_score := Display.float_of_ratio 15 100 |}.


End Fixtures.

(* ===================================================================== *)
(** * Part II. Properties                                                  *)
(* ===================================================================== *)

(** ** Strings *)

Section StringFacts.
Context {U : Unicode}.

Lemma len_app {A} (a b : list A) : len (a ++ b) = len a + len b.
Proof. unfold len. rewrite length_app. lia. Qed.

Lemma str_eqb_eq (a b : str) : str_eqb a b = true <-> a = b.
Proof.
  unfold str_eqb. destruct (list_eq_dec N.eq_dec a b); split; congruence.
Qed.

Lemma str_eqb_refl (a : str) : str_eqb a a = true.
Proof. now apply str_eqb_eq. Qed.

Lemma str_eqb_neq (a b : str) : str_eqb a b = false <-> a <> b.
Proof.
  unfold str_eqb. destruct (list_eq_dec N.eq_dec a b); split; congruence.
Qed.

(** [find] answers [-1] exactly when [in] answers [False]. *)
Lemma find_from_contains (needle hay : str) (i : Z) :
  0 <= i ->
  if contains needle hay then 0 <= find_from needle hay i
  else find_from needle hay i = -1.
Proof.
  revert i. induction hay as [|c hay IH]; intros i Hi; simpl.
  - destruct (startswith needle []); simpl; lia.
  - destruct (startswith needle (c :: hay)); simpl; [lia|].
    apply IH. lia.
Qed.

Lemma find_found (needle hay : str) :
  contains needle hay = true -> (find hay needle =? -1) = false.
Proof.
  intros H. pose proof (find_from_contains needle hay 0 ltac:(lia)) as F.
  rewrite H in F. unfold find. lia.
Qed.

Lemma lstrip_blank (s : str) : forallb isspace s = true -> lstrip s = [].
Proof.
  induction s as [|c s IH]; simpl; [reflexivity|].
  intros H. apply andb_true_iff in H as [Hc Hs]. rewrite Hc. auto.
Qed.

Lemma strip_blank (s : str) : forallb isspace s = true -> strip s = [].
Proof.
  intros H. unfold strip, rstrip. rewrite (lstrip_blank s H). reflexivity.
Qed.

End StringFacts.

(** ** [truncate_text] *)

Section Truncate.
Import Display.

Lemma slice_to_len {A} (s : list A) (k : Z) :
  0 <= k <= len s -> len (slice_to s k) = k.
Proof.
  intros H. unfold slice_to, clamp, len in *.
  destruct (k <? 0) eqn:E; [lia|].
  rewrite length_firstn. lia.
Qed.

(** C5, as the code has it: a string no longer than the bound is returned
    unchanged; a longer one, when the bound is at least 3, is cut to its
    first [max_length - 3] characters followed by ["..."], so that the
    result has length exactly [max_length]. *)
Theorem truncate_text_spec (text : str) (max_length : Z) :
  (len text <= max_length -> truncate_text text max_length = text) /\
  (max_length < len text -> 3 <= max_length ->
   truncate_text text max_length
     = firstn (Z.to_nat (max_length - 3)) text ++ lit "..." /\
   len (truncate_text text max_length) = max_length /\
   len (truncate_text text max_length) <= max_length).
Proof.
  unfold truncate_text. split.
  - intros H. apply Z.leb_le in H. now rewrite H.
  - intros Hlt H3.
    destruct (len text <=? max_length) eqn:E; [lia|].
    assert (Hs : slice_to text (max_length - 3)
                 = firstn (Z.to_nat (max_length - 3)) text).
    { unfold slice_to, clamp. destruct (max_length - 3 <? 0) eqn:E'; [lia|].
      reflexivity. }
    assert (Hl : len (slice_to text (max_length - 3) ++ lit "...") = max_length).
    { rewrite len_app, slice_to_len by lia. change (len (lit "...")) with 3. lia. }
    rewrite <- Hs. split; [reflexivity|]. lia.
Qed.

Lemma truncate_text_spec_witness :
  truncate_text (lit "Ann") 15 = lit "Ann" /\
  truncate_text (lit "Bartholomew Higgins") 15 = lit "Bartholomew ...".
Proof.
  split.
  - apply (proj1 (truncate_text_spec (lit "Ann") 15)). vm_compute. discriminate.
  - destruct (proj2 (truncate_text_spec (lit "Bartholomew Higgins") 15)) as [H _].
    + vm_compute. reflexivity.
    + lia.
    + exact H.
Defined.

(** C5 as stated fails below 3: with bound 2 the six-character string
    comes back eight characters long. *)
Lemma truncate_text_small_bound :
  2 < len (lit "abcdef") /\
  truncate_text (lit "abcdef") 2 = lit "abcde..." /\
  len (truncate_text (lit "abcdef") 2) <> 2 /\
  ~ len (truncate_text (lit "abcdef") 2) <= 2.
Proof.
  assert (E : truncate_text (lit "abcdef") 2 = lit "abcde...") by reflexivity.
  rewrite E. change (len (lit "abcde...")) with 8.
  change (len (lit "abcdef")) with 6. repeat split; lia.
Qed.

End Truncate.

(** ** [extract_customer_info]: the name *)

Section Name.
Context {U : Unicode}.
Import Main Shape.

Lemma scan_name_first (before : list str) (line : str) (after : list str) :
  (forall l, In l before -> mentions_name l = false) ->
  mentions_name line = true ->
  scan_name (before ++ line :: after) = Some (strip (after_marker line)).
Proof.
  intros Hb Hl. induction before as [|l before IH]; simpl.
  - unfold mentions_name in Hl. rewrite Hl, (find_found _ _ Hl). reflexivity.
  - pose proof (Hb l (or_introl eq_refl)) as E. unfold mentions_name in E.
    rewrite E. apply IH. intros l' Hin. apply Hb. now right.
Qed.

(** C2, as the code has it: when the first line that mentions ["name:"]
    (in any case) has only whitespace after the marker, the name is the
    fallback ["Unknown Customer"]: the stripped text is empty, and the
    empty string is falsy in [name or 'Unknown Customer']. *)
Theorem extract_blank_name_is_fallback
    (ticket_content : str) (before : list str) (line : str) (after : list str) :
  split 10%N ticket_content = before ++ line :: after ->
  (forall l, In l before -> mentions_name l = false) ->
  mentions_name line = true ->
  forallb isspace (after_marker line) = true ->
  name (extract_customer_info ticket_content) = lit "Unknown Customer".
Proof.
  intros Hs Hb Hl Hw. unfold extract_customer_info. simpl.
  rewrite Hs, (scan_name_first before line after Hb Hl).
  rewrite (strip_blank _ Hw). reflexivity.
Qed.

(** The name is never empty, whatever the ticket. *)
Lemma extract_name_nonempty (ticket_content : str) :
  name (extract_customer_info ticket_content) <> [].
Proof.
  unfold extract_customer_info. simpl.
  destruct (scan_name _) as [[|c s]|]; simpl; discriminate.
Qed.

Lemma extract_email_nonempty (ticket_content : str) :
  email (extract_customer_info ticket_content) <> [].
Proof.
  unfold extract_customer_info. simpl.
  destruct (Re.findall _ _) as [|[|c s] ?]; simpl; discriminate.
Qed.

End Name.

Lemma extract_blank_name_is_fallback_witness :
  Main.name (Main.extract_customer_info (U := ascii_unicode)
               (lit "Hello" ++ [10%N] ++ lit "Name:   " ++ [10%N] ++ lit "Bye"))
  = lit "Unknown Customer".
Proof.
  apply (extract_blank_name_is_fallback (U := ascii_unicode) _
           [lit "Hello"] (lit "Name:   ") [lit "Bye"]).
  - vm_compute. reflexivity.
  - intros l [<-|[]]. vm_compute. reflexivity.
  - vm_compute. reflexivity.
  - vm_compute. reflexivity.
Defined.

(** The first sample ticket, as the end-to-end scenario has it. *)
Example extract_sample_1 :
  Main.extract_customer_info (U := ascii_unicode) Main.sample_1
  = {| Main.email := lit "sarah.johnson@email.com";
       Main.name := lit "Sarah Johnson" |}.
Proof. vm_compute. reflexivity. Qed.

(** C2 as stated fails: for the ticket ["Name:"] the name is not the empty
    string but the fallback. *)
Lemma extract_blank_name_not_empty :
  Main.name (Main.extract_customer_info (U := ascii_unicode) (lit "Name:"))
    = lit "Unknown Customer" /\
  Main.name (Main.extract_customer_info (U := ascii_unicode) (lit "Name:"))
    <> [].
Proof. vm_compute. split; [reflexivity | discriminate]. Qed.

(** ** [get_ticket_input] *)

Section InputFacts.
Context {U : Unicode}.
Import Main.

Lemma sample_ticket_is_sample (draw : nat) :
  In (SAMPLE_TICKET draw) SAMPLE_TICKETS.
Proof.
  unfold SAMPLE_TICKET, random_choice. apply nth_In.
  apply Nat.mod_upper_bound. discriminate.
Qed.

Lemma samples_are_not_the_sentinel :
  forall t, In t SAMPLE_TICKETS -> t <> lit "ALL_SAMPLES".
Proof.
  assert (H : forallb (fun t => negb (str_eqb t (lit "ALL_SAMPLES")))
                SAMPLE_TICKETS = true) by (vm_compute; reflexivity).
  intros t Hin E. rewrite forallb_forall in H. specialize (H t Hin).
  rewrite E, str_eqb_refl in H. discriminate.
Qed.

(** C10: without command-line arguments ([sys.argv] holds the program name
    only) the result is the sample ticket drawn at import time, an element
    of [SAMPLE_TICKETS]; it is not the batch sentinel, and standard input
    is neither read nor consulted. *)
Theorem get_ticket_input_default (draw : nat) (prog : str) (stdin : list str) :
  get_ticket_input draw [prog] stdin = (SAMPLE_TICKET draw, stdin) /\
  get_ticket_input draw [] stdin = (SAMPLE_TICKET draw, stdin) /\
  In (fst (get_ticket_input draw [prog] stdin)) SAMPLE_TICKETS /\
  fst (get_ticket_input draw [prog] stdin) <> lit "ALL_SAMPLES" /\
  fst (get_ticket_input draw [prog] stdin) = fst (get_ticket_input draw [prog] []).
Proof.
  simpl. repeat split.
  - apply sample_ticket_is_sample.
  - apply samples_are_not_the_sentinel, sample_ticket_is_sample.
Qed.

(** The draw selects among the five samples; here the second one. *)
Example sample_ticket_of_draw_1 : SAMPLE_TICKET 1 = sample_2.
Proof. reflexivity. Qed.

(** The three modes that an argument selects. *)
Lemma get_ticket_input_modes (draw : nat) (prog arg1 : str) (rest stdin : list str) :
  get_ticket_input draw (prog :: arg1 :: rest) stdin =
    if str_eqb arg1 (lit "--interactive") || str_eqb arg1 (lit "-i")
    then get_interactive_ticket stdin
    else if str_eqb arg1 (lit "--all") || str_eqb arg1 (lit "-a")
         then (lit "ALL_SAMPLES", stdin)
         else (join (lit " ") (arg1 :: rest), stdin).
Proof. reflexivity. Qed.

End InputFacts.

(** ** The matcher *)

Section Matcher.
Context {U : Unicode}.
Import Shape.

Lemma last_char_app (prev : option char) (a b : str) :
  last_char prev (a ++ b) = last_char (last_char prev a) b.
Proof. unfold last_char. apply fold_left_app. Qed.

Lemma last_char_cons (prev : option char) (c : char) (s : str) :
  last_char prev (c :: s) = last_char (Some c) s.
Proof. reflexivity. Qed.

(** *** What a successful run has read *)

Lemma one_inv cls k prev s r :
  Re.one cls k prev s = Some r ->
  exists c s' r',
    s = c :: s' /\ cls c = true /\ r = c :: r' /\ k (Some c) s' = Some r'.
Proof.
  unfold Re.one. destruct s as [|c s']; [discriminate|].
  destruct (cls c) eqn:E; [|discriminate].
  destruct (k (Some c) s') as [r'|] eqn:K; [|discriminate].
  simpl. intros [= <-]. now exists c, s', r'.
Qed.

Lemma star_inv cls k s : forall prev r,
  Re.star cls k prev s = Some r ->
  exists a s' r',
    s = a ++ s' /\ forallb cls a = true /\ r = a ++ r' /\
    k (last_char prev a) s' = Some r'.
Proof.
  induction s as [|c s IH]; intros prev r; simpl.
  - intros H. now exists [], [], r.
  - destruct (cls c) eqn:E.
    + destruct (Re.star cls k (Some c) s) as [r0|] eqn:S0.
      * intros [= <-].
        destruct (IH _ _ S0) as (a & s' & r' & -> & Ha & -> & Hk).
        exists (c :: a), s', r'. simpl. rewrite E, Ha. auto.
      * intros H. now exists [], (c :: s), r.
    + intros H. now exists [], (c :: s), r.
Qed.

Lemma boundary_inv k prev s r :
  Re.boundary k prev s = Some r ->
  Re.at_boundary prev s = true /\ k prev s = Some r.
Proof.
  unfold Re.boundary. destruct (Re.at_boundary prev s); [auto|discriminate].
Qed.

(** *** When a run succeeds *)

Lemma one_some cls k prev c s :
  cls c = true -> k (Some c) s <> None -> Re.one cls k prev (c :: s) <> None.
Proof.
  intros E K. unfold Re.one. rewrite E.
  destruct (k (Some c) s); [discriminate|congruence].
Qed.

Lemma star_some cls k a : forall prev s,
  forallb cls a = true -> k (last_char prev a) s <> None ->
  Re.star cls k prev (a ++ s) <> None.
Proof.
  induction a as [|c a IH]; intros prev s Ha K.
  - simpl in *. destruct s as [|c s]; simpl; [exact K|].
    destruct (cls c); [|exact K].
    destruct (Re.star cls k (Some c) s); [discriminate|exact K].
  - simpl in Ha. apply andb_true_iff in Ha as [Hc Ha]. simpl. rewrite Hc.
    specialize (IH (Some c) s Ha K).
    destruct (Re.star cls k (Some c) (a ++ s)); [discriminate|congruence].
Qed.

Lemma boundary_some k prev s :
  Re.at_boundary prev s = true -> k prev s <> None ->
  Re.boundary k prev s <> None.
Proof. intros B K. unfold Re.boundary. now rewrite B. Qed.

(** *** The e-mail pattern *)

Lemma is_at_eq c : Main.is_at c = true -> c = 64%N.
Proof. apply N.eqb_eq. Qed.

Lemma is_dot_eq c : Main.is_dot c = true -> c = 46%N.
Proof. apply N.eqb_eq. Qed.

(** Soundness: what the pattern returns is a prefix of the subject with
    the shape of the pattern, between two boundaries. *)
Lemma email_pattern_sound prev s m :
  Main.email_pattern prev s = Some m ->
  exists post,
    s = m ++ post /\ email_shape m /\
    Re.at_boundary prev s = true /\
    Re.at_boundary (last_char prev m) post = true.
Proof.
  unfold Main.email_pattern, Re.plus, Re.two_or_more. intros H.
  apply boundary_inv in H as [B0 H].
  apply one_inv in H as (l1 & s1 & r1 & -> & Hl1 & -> & H).
  apply star_inv in H as (l & s2 & r2 & -> & Hl & -> & H).
  apply one_inv in H as (at_ & s3 & r3 & -> & Hat & -> & H).
  apply is_at_eq in Hat. subst at_.
  apply one_inv in H as (d1 & s4 & r4 & -> & Hd1 & -> & H).
  apply star_inv in H as (d & s5 & r5 & -> & Hd & -> & H).
  apply one_inv in H as (dot & s6 & r6 & -> & Hdot & -> & H).
  apply is_dot_eq in Hdot. subst dot.
  apply one_inv in H as (t1 & s7 & r7 & -> & Ht1 & -> & H).
  apply one_inv in H as (t2 & s8 & r8 & -> & Ht2 & -> & H).
  apply star_inv in H as (t & post & r9 & -> & Ht & -> & H).
  apply boundary_inv in H as [B1 H]. injection H as <-.
  exists post. repeat split.
  - simpl. repeat (rewrite <- app_assoc; simpl). rewrite ?app_nil_r. reflexivity.
  - exists (l1 :: l), (d1 :: d), (t1 :: t2 :: t). repeat split.
    + simpl. repeat (rewrite <- app_assoc; simpl). rewrite ?app_nil_r. reflexivity.
    + discriminate.
    + simpl. now rewrite Hl1, Hl.
    + discriminate.
    + simpl. now rewrite Hd1, Hd.
    + simpl. lia.
    + simpl. now rewrite Ht1, Ht2, Ht.
  - exact B0.
  - rewrite <- B1. f_equal.
    rewrite ?app_nil_r. rewrite last_char_cons, last_char_app. simpl.
    rewrite last_char_app. simpl. reflexivity.
Qed.

(** Completeness: where a string of the shape stands between two
    boundaries, the pattern matches. *)
Lemma email_pattern_complete prev m post :
  email_shape m ->
  Re.at_boundary prev (m ++ post) = true ->
  Re.at_boundary (last_char prev m) post = true ->
  Main.email_pattern prev (m ++ post) <> None.
Proof.
  intros (l & d & t & -> & Hl0 & Hl & Hd0 & Hd & Ht0 & Ht) B0 B1.
  destruct l as [|l1 l]; [congruence|].
  destruct d as [|d1 d]; [congruence|].
  destruct t as [|t1 [|t2 t]]; simpl in Ht0; try lia.
  simpl in Hl, Hd, Ht.
  apply andb_true_iff in Hl as [Hl1 Hl].
  apply andb_true_iff in Hd as [Hd1 Hd].
  apply andb_true_iff in Ht as [Ht1 Ht].
  apply andb_true_iff in Ht as [Ht2 Ht].
  unfold Main.email_pattern, Re.plus, Re.two_or_more.
  apply boundary_some; [exact B0|].
  cbn [app]. repeat (rewrite <- app_assoc; cbn [app]).
  apply one_some; [exact Hl1|].
  apply star_some; [exact Hl|].
  apply one_some; [reflexivity|].
  apply one_some; [exact Hd1|].
  apply star_some; [exact Hd|].
  apply one_some; [reflexivity|].
  apply one_some; [exact Ht1|].
  apply one_some; [exact Ht2|].
  apply star_some; [exact Ht|].
  apply boundary_some; [|discriminate].
  rewrite <- B1. f_equal.
  cbn [app]. rewrite last_char_cons, last_char_app. cbn [app].
  rewrite !last_char_cons, last_char_app. cbn [app].
  rewrite !last_char_cons. reflexivity.
Qed.

(** *** Greedy repetition takes as much as the rest of the pattern allows *)

Lemma star_greedy cls k s : forall prev r,
  Re.star cls k prev s = Some r ->
  exists a s' r',
    s = a ++ s' /\ forallb cls a = true /\ r = a ++ r' /\
    k (last_char prev a) s' = Some r' /\
    forall a2 s2,
      s = a2 ++ s2 -> forallb cls a2 = true ->
      (List.length a < List.length a2)%nat ->
      k (last_char prev a2) s2 = None.
Proof.
  induction s as [|c s IH]; intros prev r; simpl.
  - intros H. exists [], [], r. repeat split; auto.
    intros a2 s2 E _ L. symmetry in E. apply app_eq_nil in E as [-> _].
    simpl in L. lia.
  - destruct (cls c) eqn:E.
    + destruct (Re.star cls k (Some c) s) as [r0|] eqn:S0.
      * intros [= <-].
        destruct (IH _ _ S0) as (a & s' & r' & -> & Ha & -> & Hk & Hmax).
        exists (c :: a), s', r'. simpl. rewrite E, Ha. repeat split; auto.
        intros [|c2 a2] s2 E2 Ha2 L; simpl in L; [lia|].
        simpl in E2. injection E2 as <- E2. simpl in Ha2.
        apply andb_true_iff in Ha2 as [_ Ha2].
        rewrite last_char_cons. apply Hmax; [exact E2 | exact Ha2 | lia].
      * intros H. exists [], (c :: s), r. repeat split; auto.
        intros [|c2 a2] s2 E2 Ha2 L; simpl in L; [lia|].
        simpl in E2. injection E2 as <- ->. simpl in Ha2.
        apply andb_true_iff in Ha2 as [_ Ha2]. rewrite last_char_cons.
        destruct (k (last_char (Some c) a2) s2) eqn:K; [|reflexivity].
        exfalso. apply (star_some cls k a2 (Some c) s2 Ha2); [|exact S0].
        rewrite K. discriminate.
    + intros H. exists [], (c :: s), r. repeat split; auto.
      intros [|c2 a2] s2 E2 Ha2 L; simpl in L; [lia|].
      simpl in E2. injection E2 as <- _. simpl in Ha2. rewrite E in Ha2.
      discriminate.
Qed.

(** Two runs of a class that both end before a character outside the
    class and start at the same place are the same run. *)
Lemma class_span_unique cls (a : str) : forall a' x x' r r',
  a ++ x :: r = a' ++ x' :: r' ->
  forallb cls a = true -> forallb cls a' = true ->
  cls x = false -> cls x' = false ->
  a = a' /\ r = r'.
Proof.
  induction a as [|c a IH]; intros [|c' a'] x x' r r' E Ha Ha' Hx Hx';
    simpl in *.
  - injection E as _ ->. now split.
  - injection E as -> _. apply andb_true_iff in Ha' as [Hc _]. congruence.
  - injection E as -> _. apply andb_true_iff in Ha as [Hc _]. congruence.
  - injection E as <- E.
    apply andb_true_iff in Ha as [_ Ha]. apply andb_true_iff in Ha' as [_ Ha'].
    destruct (IH _ _ _ _ _ E Ha Ha' Hx Hx') as [-> ->]. now split.
Qed.

Lemma tld_char_not_dot : Main.tld_char 46%N = false.
Proof. reflexivity. Qed.

Lemma local_char_not_at : Main.local_char 64%N = false.
Proof. reflexivity. Qed.

(** Among the strings of the shape that start where the pattern matched
    and end at a boundary, the match is the longest. *)
Lemma email_pattern_longest prev s m :
  Main.email_pattern prev s = Some m ->
  forall m' post',
    s = m' ++ post' -> email_shape m' ->
    Re.at_boundary (last_char prev m') post' = true ->
    (List.length m' <= List.length m)%nat.
Proof.
  unfold Main.email_pattern, Re.plus, Re.two_or_more. intros H.
  apply boundary_inv in H as [B0 H].
  apply one_inv in H as (l1 & s1 & r1 & -> & Hl1 & -> & H).
  apply star_inv in H as (l & s2 & r2 & -> & Hl & -> & H).
  apply one_inv in H as (at_ & s3 & r3 & -> & Hat & -> & H).
  apply is_at_eq in Hat. subst at_.
  apply one_inv in H as (d1 & s4 & r4 & -> & Hd1 & -> & H).
  apply star_greedy in H as (d & s5 & r5 & -> & Hd & -> & H & Gd).
  apply one_inv in H as (dot & s6 & r6 & -> & Hdot & -> & H).
  apply is_dot_eq in Hdot. subst dot.
  apply one_inv in H as (t1 & s7 & r7 & -> & Ht1 & -> & H).
  apply one_inv in H as (t2 & s8 & r8 & -> & Ht2 & -> & H).
  apply star_greedy in H as (t & post & r9 & -> & Ht & -> & H & Gt).
  apply boundary_inv in H as [B1 H]. injection H as <-.
  intros m' post' E (l' & d' & t' & -> & Hl0' & Hl' & Hd0' & Hd' & Ht0' & Ht') B'.
  destruct d' as [|d1' d']; [congruence|].
  destruct t' as [|t1' [|t2' t']]; simpl in Ht0'; try (unfold str, char in *; lia).
  simpl in Hd', Ht'.
  apply andb_true_iff in Hd' as [Hd1' Hd'].
  apply andb_true_iff in Ht' as [Ht1' Ht'].
  apply andb_true_iff in Ht' as [Ht2' Ht'].
  (* the local parts coincide *)
  assert (E1 : (l1 :: l) ++ 64%N :: (d1 :: d ++ 46%N :: t1 :: t2 :: t ++ post)
             = l' ++ 64%N :: ((d1' :: d') ++ 46%N :: (t1' :: t2' :: t') ++ post')).
  { etransitivity; [exact E|].
    cbn [app]. repeat (rewrite <- app_assoc; cbn [app]). reflexivity. }
  apply (class_span_unique Main.local_char) in E1 as [<- E2];
    [ | simpl; now rewrite Hl1, Hl | exact Hl'
      | exact local_char_not_at | exact local_char_not_at ].
  cbn [app] in E2. injection E2 as <- E2.
  (* the boundary after [m'], seen from the end of its last part *)
  assert (B2 : Re.at_boundary (last_char (Some t2') t') post' = true).
  { rewrite <- B'. rewrite !last_char_app, !last_char_cons. reflexivity. }
  (* what follows a domain of [m'] is accepted by the rest of the pattern *)
  assert (K : forall p,
             Re.one Main.is_dot
               (Re.one Main.tld_char (Re.one Main.tld_char
                  (Re.star Main.tld_char (Re.boundary Re.done))))
               p (46%N :: t1' :: t2' :: t' ++ post') <> None).
  { intros p. apply one_some; [reflexivity|].
    apply one_some; [exact Ht1'|]. apply one_some; [exact Ht2'|].
    apply star_some; [exact Ht'|]. apply boundary_some; [exact B2|discriminate]. }
  simpl. rewrite !length_app. simpl. rewrite !length_app. simpl.
  rewrite ?length_app. simpl.
  apply app_eq_app in E2 as (x & [[-> E3] | [-> E3]]).
  - (* the domain of [m'] is no longer than the one matched *)
    destruct x as [|x0 x].
    + rewrite app_nil_r in *. simpl in E3. injection E3 as <- <- E3.
      apply app_eq_app in E3 as (y & [[-> E4] | [-> E4]]).
      * destruct y as [|y0 y];
          [rewrite ?app_nil_r, ?length_app; simpl; (unfold str, char in *; lia)|].
        exfalso.
        assert (N : Re.boundary Re.done (last_char (Some t2') (t ++ y0 :: y)) post'
                    = None).
        { apply Gt; [now rewrite <- app_assoc, E4 | exact Ht' |].
          rewrite length_app. simpl. (unfold str, char in *; lia). }
        unfold Re.boundary in N.
        destruct (Re.at_boundary _ post') eqn:C in N; [discriminate|].
        assert (C' : false = true) by (rewrite <- C; exact B2). discriminate.
      * rewrite ?length_app. simpl. (unfold str, char in *; lia).
    + simpl in E3. injection E3 as <- E3.
      (* the last part of [m'] lies inside the domain matched *)
      assert (Lt' : (List.length (t1' :: t2' :: t') <= List.length x)%nat).
      { change (t1' :: t2' :: t' ++ post') with ((t1' :: t2' :: t') ++ post') in E3.
        apply app_eq_app in E3 as (y & [[E5 E6] | [-> E6]]).
        - destruct y as [|y0 y].
          + rewrite app_nil_r in E5. rewrite E5. (unfold str, char in *; lia).
          + simpl in E6. injection E6 as <- _.
            exfalso.
            assert (F : forallb Main.tld_char (t1' :: t2' :: t') = true)
              by (simpl; now rewrite Ht1', Ht2', Ht').
            rewrite E5, forallb_app in F. cbn [forallb] in F.
            rewrite tld_char_not_dot in F. cbn [andb] in F.
            rewrite andb_false_r in F. discriminate.
        - rewrite length_app. (unfold str, char in *; lia). }
      simpl in Lt'. rewrite length_app. simpl. (unfold str, char in *; lia).
  - (* a longer domain would have been preferred *)
    destruct x as [|x0 x].
    + rewrite app_nil_r in *. simpl in E3. injection E3 as <- <- E3.
      symmetry in E3.
      apply app_eq_app in E3 as (y & [[-> E4] | [-> E4]]).
      * destruct y as [|y0 y];
          [rewrite ?app_nil_r, ?length_app; simpl; (unfold str, char in *; lia)|].
        exfalso.
        assert (N : Re.boundary Re.done (last_char (Some t2) (t ++ y0 :: y)) post'
                    = None).
        { apply Gt; [now rewrite <- app_assoc, E4 | exact Ht' |].
          rewrite length_app. simpl. (unfold str, char in *; lia). }
        unfold Re.boundary in N.
        destruct (Re.at_boundary _ post') eqn:C in N; [discriminate|].
        assert (C' : false = true) by (rewrite <- C; exact B2). discriminate.
      * rewrite ?length_app. simpl. (unfold str, char in *; lia).
    + exfalso.
      apply (K (last_char (Some d1) (d ++ x0 :: x))).
      apply Gd; [ | exact Hd' | rewrite length_app; simpl; (unfold str, char in *; lia)].
      rewrite <- app_assoc. f_equal. exact E3.
Qed.

(** *** [findall]: the first match is the leftmost one *)

Lemma findall_from_head (p : Re.cont) (s : str) : forall prev,
  match Re.findall_from p O prev s with
  | m :: _ =>
      exists pre post,
        s = pre ++ post /\ p (last_char prev pre) post = Some m /\
        forall pre' post',
          s = pre' ++ post' -> (List.length pre' < List.length pre)%nat ->
          p (last_char prev pre') post' = None
  | [] =>
      forall pre post, s = pre ++ post -> p (last_char prev pre) post = None
  end.
Proof.
  induction s as [|c s IH]; intros prev; simpl.
  - destruct (p prev []) as [m|] eqn:E.
    + exists [], []. repeat split; [exact E|]. simpl. intros; lia.
    + intros pre post H. symmetry in H. apply app_eq_nil in H as [-> ->]. exact E.
  - destruct (p prev (c :: s)) as [m|] eqn:E.
    + exists [], (c :: s). repeat split; [exact E|]. simpl. intros; lia.
    + specialize (IH (Some c)).
      destruct (Re.findall_from p 0 (Some c) s) as [|m ms].
      * intros [|c' pre] post H; simpl in H.
        -- subst post. exact E.
        -- injection H as <- ->. rewrite last_char_cons. now apply IH.
      * destruct IH as (pre & post & -> & Hm & Hmin).
        exists (c :: pre), post. repeat split; [exact Hm|].
        intros [|c' pre'] post' H Hlen; simpl in H.
        -- subst post'. exact E.
        -- injection H as <- H. rewrite last_char_cons. apply Hmin; [exact H|].
           simpl in Hlen. lia.
Qed.

End Matcher.

(** ** [extract_customer_info]: the e-mail address, and totality *)

Section Email.
Context {U : Unicode}.
Import Main Shape.

Lemma email_shape_nonempty (m : str) : email_shape m -> m <> [].
Proof.
  intros (l & d & t & -> & Hl & _). destruct l; [congruence|discriminate].
Qed.

(** An occurrence is a local part, [@] and a domain with a dot in it. *)
Lemma email_shape_local_at_domain (m : str) :
  email_shape m ->
  exists local domain,
    m = local ++ [64%N] ++ domain /\ local <> [] /\ In 46%N domain.
Proof.
  intros (l & d & t & -> & Hl & _). exists l, (d ++ [46%N] ++ t).
  split; [reflexivity|]. split; [exact Hl|].
  apply in_or_app. right. now left.
Qed.

Lemma or_else_some (m d : str) : m <> [] -> or_else (Some m) d = m.
Proof. destruct m; [congruence|reflexivity]. Qed.

Lemma app_eq_length_inv {A} (a : list A) : forall b c d,
  a ++ b = c ++ d -> List.length a = List.length c -> a = c /\ b = d.
Proof.
  induction a as [|x a IH]; intros b [|y c] d E L; simpl in *; try discriminate.
  - now split.
  - injection E as -> E. injection L as L.
    destruct (IH _ _ _ E L) as [-> ->]. now split.
Qed.

(** The first element of [findall] is the leftmost occurrence, the
    longest of those that start there, and [findall] is empty only when
    there is no occurrence. *)
Lemma findall_email_cases (text : str) :
  (Re.findall email_pattern text = [] /\
   forall pre m post, ~ occurs_at text pre m post)
  \/
  (exists pre m post ms,
     Re.findall email_pattern text = m :: ms /\
     occurs_at text pre m post /\
     forall pre' m' post',
       occurs_at text pre' m' post' ->
       (List.length pre <= List.length pre')%nat /\
       (List.length pre' = List.length pre ->
        (List.length m' <= List.length m)%nat)).
Proof.
  unfold Re.findall.
  pose proof (findall_from_head email_pattern text None) as H.
  destruct (Re.findall_from email_pattern 0 None text) as [|m ms].
  - left. split; [reflexivity|].
    intros pre m post (Ht & Hs & B0 & B1).
    apply (email_pattern_complete (last_char None pre) m post Hs B0).
    + now rewrite <- last_char_app.
    + apply (H pre (m ++ post) Ht).
  - right. destruct H as (pre & rest & Ht & Hm & Hmin).
    destruct (email_pattern_sound _ _ _ Hm) as (post & -> & Hs & B0 & B1).
    exists pre, m, post, ms. split; [reflexivity|]. split.
    + split; [exact Ht|]. split; [exact Hs|]. split; [exact B0|].
      now rewrite last_char_app.
    + intros pre' m' post' (Ht' & Hs' & B0' & B1'). split.
      * destruct (Nat.le_gt_cases (List.length pre) (List.length pre'))
          as [Hle|Hgt]; [exact Hle|].
        exfalso.
        apply (email_pattern_complete (last_char None pre') m' post' Hs' B0').
        -- now rewrite <- last_char_app.
        -- apply (Hmin pre' (m' ++ post') Ht' Hgt).
      * intros Hlen. rewrite Ht in Ht'.
        destruct (app_eq_length_inv _ _ _ _ Ht' (eq_sym Hlen)) as [-> Hrest].
        apply (email_pattern_longest _ _ _ Hm m' post' Hrest Hs').
        now rewrite <- last_char_app.
Qed.

(** C4, as the code has it: either the text holds no occurrence of the
    address pattern and the e-mail is the fallback, or the e-mail is the
    occurrence that starts first in the text (and, of those that start
    there, the longest); such an occurrence stands in the text and is a
    well-formed address in the words of the specification. *)
Theorem extract_email_first_match (ticket_content : str) :
  (email (extract_customer_info ticket_content) = lit "unknown@example.com" /\
   forall pre m post, ~ occurs_at ticket_content pre m post)
  \/
  (exists pre m post,
     email (extract_customer_info ticket_content) = m /\
     Spec.holds ticket_content m /\
     Spec.well_formed_address m /\
     occurs_at ticket_content pre m post /\
     forall pre' m' post',
       occurs_at ticket_content pre' m' post' ->
       (List.length pre <= List.length pre')%nat /\
       (List.length pre' = List.length pre ->
        (List.length m' <= List.length m)%nat)).
Proof.
  unfold extract_customer_info. cbn [email].
  destruct (findall_email_cases ticket_content)
    as [[-> Hno] | (pre & m & post & ms & -> & Hocc & Hmin)].
  - left. split; [reflexivity | exact Hno].
  - right. exists pre, m, post.
    split; [apply or_else_some, email_shape_nonempty; apply Hocc|].
    split; [exists pre, post; apply Hocc|].
    split; [apply email_shape_local_at_domain; apply Hocc|].
    split; assumption.
Qed.

(** The loop over the lines stops at the first line that mentions the
    marker. *)
Lemma scan_name_cases (lines : list str) :
  (scan_name lines = None /\
   forall l, In l lines -> mentions_name l = false)
  \/
  (exists before line after,
     lines = before ++ line :: after /\
     (forall l, In l before -> mentions_name l = false) /\
     mentions_name line = true /\
     scan_name lines = Some (strip (after_marker line))).
Proof.
  induction lines as [|l lines IH].
  - left. split; [reflexivity|]. intros l [].
  - destruct (mentions_name l) eqn:E.
    + right. exists [], l, lines. repeat split; [intros ? [] | exact E |].
      apply (scan_name_first [] l lines); [intros ? [] | exact E].
    + destruct IH as [[HN Hall] | (before & line & after & -> & Hb & Hl & HS)].
      * left. split.
        -- simpl. unfold mentions_name in E. now rewrite E.
        -- intros l' [<-|Hin]; [exact E | now apply Hall].
      * right. exists (l :: before), line, after. repeat split.
        -- intros l' [<-|Hin]; [exact E | now apply Hb].
        -- exact Hl.
        -- apply (scan_name_first (l :: before) line after); [|exact Hl].
           intros l' [<-|Hin]; [exact E | now apply Hb].
Qed.

(** C8: the function is total, and for every ticket its result has a
    non-empty e-mail and a non-empty name; each field is the placeholder
    when the text holds nothing to extract, and otherwise comes from the
    leftmost occurrence of the address pattern, respectively from the
    first line that mentions the marker. *)
Theorem extract_customer_info_total (ticket_content : str) :
  exists e n,
    extract_customer_info ticket_content = {| email := e; name := n |} /\
    e <> [] /\ n <> [] /\
    ((e = lit "unknown@example.com" /\
      forall pre m post, ~ occurs_at ticket_content pre m post)
     \/ exists pre post, occurs_at ticket_content pre e post) /\
    ((n = lit "Unknown Customer" /\
      forall l, In l (split 10%N ticket_content) -> mentions_name l = false)
     \/ exists before line after,
          split 10%N ticket_content = before ++ line :: after /\
          (forall l, In l before -> mentions_name l = false) /\
          mentions_name line = true /\
          n = or_else (Some (strip (after_marker line))) (lit "Unknown Customer")).
Proof.
  exists (email (extract_customer_info ticket_content)),
         (name (extract_customer_info ticket_content)).
  split; [reflexivity|].
  split; [apply extract_email_nonempty|].
  split; [apply extract_name_nonempty|].
  unfold extract_customer_info. cbn [email name]. split.
  - destruct (findall_email_cases ticket_content)
      as [[-> Hno] | (pre & m & post & ms & -> & Hocc & _)].
    + left. split; [reflexivity | exact Hno].
    + right. exists pre, post.
      rewrite or_else_some; [exact Hocc|].
      apply email_shape_nonempty, Hocc.
  - destruct (scan_name_cases (split 10%N ticket_content))
      as [[-> Hall] | (before & line & after & Hs & Hb & Hl & ->)].
    + left. split; [reflexivity | exact Hall].
    + right. exists before, line, after. repeat split; assumption.
Qed.

End Email.

(** C4 as stated fails: ["bob@example.com1"] is a local part, [@] and a
    domain with a dot in it, and the text holds it, yet the e-mail is the
    fallback. The pattern asks for a word boundary after two or more
    letters, and a digit follows them here. *)
Lemma extract_email_misses_well_formed :
  Spec.well_formed_address (lit "bob@example.com1") /\
  Spec.holds (lit "Contact: bob@example.com1") (lit "bob@example.com1") /\
  Main.email (Main.extract_customer_info (U := ascii_unicode)
                (lit "Contact: bob@example.com1"))
    = lit "unknown@example.com" /\
  ~ Spec.holds (lit "Contact: bob@example.com1") (lit "unknown@example.com").
Proof.
  split; [|split; [|split]].
  - exists (lit "bob"), (lit "example.com1").
    split; [reflexivity|]. split; [discriminate|].
    vm_compute. do 7 right. left. reflexivity.
  - exists (lit "Contact: "), []. reflexivity.
  - vm_compute. reflexivity.
  - intros (pre & post & H).
    apply (f_equal (fun l => count_occ N.eq_dec l 117%N)) in H.
    rewrite !count_occ_app in H.
    change (count_occ N.eq_dec (lit "Contact: bob@example.com1") 117%N)
      with 0%nat in H.
    change (count_occ N.eq_dec (lit "unknown@example.com") 117%N)
      with 1%nat in H.
    lia.
Qed.

(** The same for an address whose last label has one letter. *)
Example extract_email_short_label :
  Spec.well_formed_address (lit "a@b.c") /\
  Main.email (Main.extract_customer_info (U := ascii_unicode) (lit "a@b.c"))
    = lit "unknown@example.com".
Proof.
  split; [|vm_compute; reflexivity].
  exists (lit "a"), (lit "b.c"). split; [reflexivity|]. split; [discriminate|].
  vm_compute. right. left. reflexivity.
Qed.

(** ** The store *)

Section StoreFacts.
Import Store.

Lemma empty_db_consistent : consistent empty_db.
Proof.
  constructor; simpl; try constructor; intros ? [].
Qed.

Lemma has_email_true (e : str) (c : customers_row) :
  has_email e c = true <-> c_email c = e.
Proof. apply str_eqb_eq. Qed.

Lemma has_email_false (e : str) (c : customers_row) :
  has_email e c = false <-> c_email c <> e.
Proof. apply str_eqb_neq. Qed.

(** Under [email UNIQUE], the rows with a given e-mail are at most one. *)
Lemma filter_email_unique (e : str) (l : list customers_row) (c : customers_row) :
  NoDup (List.map c_email l) -> In c l -> c_email c = e ->
  filter (has_email e) l = [c].
Proof.
  induction l as [|x l IH]; intros ND Hin He; [destruct Hin|].
  simpl in ND. inversion ND as [|? ? Hx ND']; subst.
  simpl. destruct Hin as [->|Hin].
  - rewrite (proj2 (has_email_true _ c) eq_refl). f_equal.
    assert (F : forall y, In y l -> has_email (c_email c) y = false).
    { intros y Hy. apply has_email_false. intros E. apply Hx.
      rewrite <- E. now apply in_map. }
    clear -F. induction l as [|y l IH]; [reflexivity|].
    simpl. rewrite (F y (or_introl eq_refl)). apply IH.
    intros z Hz. apply F. now right.
  - assert (E : has_email (c_email c) x = false).
    { apply has_email_false. intros E. apply Hx. rewrite E. now apply in_map. }
    rewrite E. now apply IH.
Qed.

Lemma filter_email_absent (e : str) (l : list customers_row) :
  List.find (has_email e) l = None -> filter (has_email e) l = [].
Proof.
  intros H. induction l as [|x l IH]; [reflexivity|].
  simpl in *. destruct (has_email e x); [discriminate|auto].
Qed.

Lemma map_set_name_id e n l : List.map c_id (List.map (set_name e n) l) = List.map c_id l.
Proof.
  rewrite map_map. apply map_ext. intros c. unfold set_name.
  now destruct (has_email e c).
Qed.

Lemma map_set_name_email e n l :
  List.map c_email (List.map (set_name e n) l) = List.map c_email l.
Proof.
  rewrite map_map. apply map_ext. intros c. unfold set_name.
  now destruct (has_email e c).
Qed.

(** The upsert leaves exactly one row for the e-mail, carrying the new
    name, and keeps the schema's constraints. *)
Lemma upsert_customer_spec (e n : str) (d : db) :
  consistent d ->
  exists cid d',
    upsert_customer e n d = (Ok cid, d') /\
    consistent d' /\
    (tickets d' = tickets d /\ tickets_id_seq d' = tickets_id_seq d /\
     customers_id_seq d <= customers_id_seq d') /\
    filter (has_email e) (customers d')
      = [{| c_id := cid; c_email := e; c_name := n |}] /\
    match List.find (has_email e) (customers d) with
    | Some c => cid = c_id c /\
                customers d' = List.map (set_name e n) (customers d)
    | None => customers d'
              = customers d ++ [{| c_id := cid; c_email := e; c_name := n |}]
    end.
Proof.
  intros [Hlt Hpk Hem Htl Htk Hfk]. unfold upsert_customer.
  destruct (List.find (has_email e) (customers d)) as [c|] eqn:F.
  - apply find_some in F as [Hin He]. pose proof He as He'.
    apply has_email_true in He'.
    eexists _, _. split; [reflexivity|].
    split; [constructor; simpl|simpl; split; [repeat split; lia|split; [|now split]]].
    + intros c' Hc'. apply in_map_iff in Hc' as (c0 & <- & Hc0).
      specialize (Hlt c0 Hc0). unfold set_name.
      destruct (has_email e c0); simpl; lia.
    + now rewrite map_set_name_id.
    + now rewrite map_set_name_email.
    + exact Htl.
    + exact Htk.
    + intros t Ht. rewrite map_set_name_id. now apply Hfk.
    + apply filter_email_unique.
      * now rewrite map_set_name_email.
      * apply in_map_iff. exists c. split; [|exact Hin].
        unfold set_name. rewrite He, <- He'. reflexivity.
      * reflexivity.
  - pose proof (find_none _ _ F) as Hnone.
    eexists _, _. split; [reflexivity|].
    split; [constructor; simpl|simpl; split; [repeat split; lia|split; [|reflexivity]]].
    + intros c' Hc'. apply in_app_or in Hc' as [Hc'|[<-|[]]].
      * specialize (Hlt c' Hc'). lia.
      * simpl. lia.
    + rewrite map_app. simpl. apply NoDup_app; [exact Hpk| |].
      * repeat constructor. intros [].
      * intros x Hx [<-|[]]. apply in_map_iff in Hx as (c0 & E & Hc0).
        specialize (Hlt c0 Hc0). lia.
    + rewrite map_app. simpl. apply NoDup_app; [exact Hem| |].
      * repeat constructor. intros [].
      * intros x Hx [<-|[]]. apply in_map_iff in Hx as (c0 & E & Hc0).
        specialize (Hnone c0 Hc0). apply has_email_false in Hnone. congruence.
    + exact Htl.
    + exact Htk.
    + intros t Ht. rewrite map_app. apply in_or_app. left. now apply Hfk.
    + rewrite filter_app, (filter_email_absent e _ F). simpl.
      unfold has_email at 1. simpl. now rewrite str_eqb_refl.
Qed.

End StoreFacts.

(** ** [process_single_ticket] *)

Section ProcessFacts.
Context {U : Unicode}.
Import Store Main.

Variable agent : str -> outcome classification.

(** Every way a call can end. Either it raises, and both tables are as
    before; or it returns the id of the one ticket row it appended, whose
    customer is the one row that now carries the extracted e-mail and
    name. *)
Lemma process_single_ticket_cases (now : Z) (ticket_content : str) (d : db) :
  consistent d ->
  exists r d',
    process_single_ticket agent now ticket_content d = (r, d') /\
    consistent d' /\
    match r with
    | Raise _ => customers d' = customers d /\ tickets d' = tickets d
    | Ok ticket_id =>
        let info := extract_customer_info ticket_content in
        exists cid output cat pri,
          agent (prompt ticket_content) = Ok output /\
          ticket_id = tickets_id_seq d /\
          Store.cast_category (Main.category output) = Some cat /\
          Store.cast_priority (Main.priority output) = Some pri /\
          tickets d'
            = tickets d ++
              [{| t_id := ticket_id; t_customer_id := cid;
                  t_raw_content := ticket_content;
                  t_summary := Main.summary output;
                  t_category := cat; t_priority := pri;
                  t_sentiment_score := Main.sentiment_score output;
                  t_created_at := now |}] /\
          filter (has_email (email info)) (customers d')
            = [{| c_id := cid; c_email := email info; c_name := name info |}] /\
          match List.find (has_email (email info)) (customers d) with
          | Some c =>
              cid = c_id c /\
              customers d'
                = List.map (set_name (email info) (name info)) (customers d)
          | None =>
              customers d'
                = customers d ++
                  [{| c_id := cid; c_email := email info; c_name := name info |}]
          end
    end.
Proof.
  intros Hd. unfold process_single_ticket.
  destruct (agent (prompt ticket_content)) as [output|e] eqn:A.
  2:{ exists (Raise e), d. unfold throw.
      split; [reflexivity|]. split; [exact Hd|]. split; reflexivity. }
  set (info := extract_customer_info ticket_content).
  destruct (upsert_customer_spec (email info) (name info) d Hd)
    as (cid & d1 & Hup & Hd1 & (Ht1 & Hs1 & Hc1) & Hf1 & Hfind).
  unfold Store.bind at 1. unfold transaction, save. unfold Store.bind at 1.
  rewrite Hup. unfold Store.bind, insert_ticket.
  assert (Hex : existsb (fun c => c_id c =? cid) (customers d1) = true).
  { apply existsb_exists.
    exists {| c_id := cid; c_email := email info; c_name := name info |}.
    split; [|simpl; lia].
    apply (proj1 (filter_In (has_email (email info)) _ (customers d1))).
    rewrite Hf1. now left. }
  destruct Hd as [Hlt Hpk Hem Htl Htk Hfk].
  destruct (cast_category (category output)) as [cat|] eqn:Ccat;
    [destruct (cast_priority (priority output)) as [pri|] eqn:Cpri|].
  - rewrite Hex. cbn [Store.ret snd].
    eexists _, _. split; [reflexivity|].
    destruct Hd1 as [Hlt1 Hpk1 Hem1 Htl1 Htk1 Hfk1].
    split; [constructor; cbn [customers tickets customers_id_seq tickets_id_seq]|].
    + exact Hlt1.
    + exact Hpk1.
    + exact Hem1.
    + intros t Hin. apply in_app_or in Hin as [Hin|[<-|[]]].
      * specialize (Htl1 t Hin). lia.
      * simpl. lia.
    + rewrite map_app. apply NoDup_app; [exact Htk1| |].
      * repeat constructor. intros [].
      * intros x Hx [<-|[]]. apply in_map_iff in Hx as (t0 & E & Ht0).
        specialize (Htl1 t0 Ht0). simpl in E. lia.
    + intros t Hin. apply in_app_or in Hin as [Hin|[<-|[]]].
      * now apply Hfk1.
      * simpl. apply existsb_exists in Hex as (c & Hc & E).
        apply in_map_iff. exists c. split; [lia|exact Hc].
    + exists cid, output, cat, pri. cbn [customers tickets].
      split; [reflexivity|]. split; [exact Hs1|].
      split; [exact Ccat|]. split; [exact Cpri|].
      split; [now rewrite Ht1|].
      split; [exact Hf1 | exact Hfind].
  - eexists _, _. split; [reflexivity|].
    split; [constructor|]; cbn [customers tickets customers_id_seq tickets_id_seq];
      auto.
    + intros c Hc. specialize (Hlt c Hc). lia.
    + intros t Hin. specialize (Htl t Hin). lia.
  - eexists _, _. split; [reflexivity|].
    split; [constructor|]; cbn [customers tickets customers_id_seq tickets_id_seq];
      auto.
    + intros c Hc. specialize (Hlt c Hc). lia.
    + intros t Hin. specialize (Htl t Hin). lia.
Qed.

Lemma find_is_filter_head {A} (f : A -> bool) (l : list A) :
  List.find f l = hd_error (filter f l).
Proof.
  induction l as [|x l IH]; [reflexivity|]. simpl.
  destruct (f x); [reflexivity | exact IH].
Qed.

(** C1: on a store that satisfies the schema, a call either raises and
    leaves both tables as they were (what the upsert wrote is rolled
    back), or returns after appending exactly one ticket row, whose
    customer exists, and exactly one customer row if the e-mail was new,
    none if it was known; afterwards every ticket references an existing
    customer. *)
Theorem process_single_ticket_atomic (now : Z) (ticket_content : str) (d : db) :
  consistent d ->
  exists r d',
    process_single_ticket agent now ticket_content d = (r, d') /\
    (forall t, In t (tickets d') ->
       In (t_customer_id t) (List.map c_id (customers d'))) /\
    match r with
    | Raise _ => customers d' = customers d /\ tickets d' = tickets d
    | Ok ticket_id =>
        (exists t,
           tickets d' = tickets d ++ [t] /\ t_id t = ticket_id /\
           In (t_customer_id t) (List.map c_id (customers d'))) /\
        match List.find
                (has_email (email (extract_customer_info ticket_content)))
                (customers d) with
        | Some _ =>
            List.map c_id (customers d') = List.map c_id (customers d) /\
            List.length (customers d') = List.length (customers d)
        | None =>
            exists c,
              customers d' = customers d ++ [c] /\
              c_email c = email (extract_customer_info ticket_content)
        end
    end.
Proof.
  intros Hd.
  destruct (process_single_ticket_cases now ticket_content d Hd)
    as (r & d' & Hrun & Hd' & Hr).
  exists r, d'. split; [exact Hrun|].
  split; [apply (tickets_customer_fkey d' Hd')|].
  destruct r as [ticket_id|e]; [|exact Hr].
  destruct Hr as (cid & output & cat & pri & _ & _ & _ & _ & Ht & Hf & Hfind).
  split.
  - eexists. split; [exact Ht|]. split; [reflexivity|].
    apply (tickets_customer_fkey d' Hd'). rewrite Ht.
    apply in_or_app. right. now left.
  - destruct (List.find _ (customers d)) as [c|].
    + destruct Hfind as [_ ->]. rewrite map_set_name_id, length_map. now split.
    + eexists. split; [exact Hfind | reflexivity].
Qed.

(** C3: two calls in sequence for tickets with the same e-mail leave
    exactly one customer row for that e-mail; it is the row the first call
    left, now under the name of the second ticket. *)
Theorem upsert_last_write_wins (now1 now2 : Z) (ticket1 ticket2 : str)
    (d d1 d2 : db) (id1 id2 : Z) :
  consistent d ->
  process_single_ticket agent now1 ticket1 d = (Ok id1, d1) ->
  process_single_ticket agent now2 ticket2 d1 = (Ok id2, d2) ->
  email (extract_customer_info ticket1) = email (extract_customer_info ticket2) ->
  exists cid,
    filter (has_email (email (extract_customer_info ticket2))) (customers d1)
      = [{| c_id := cid;
            c_email := email (extract_customer_info ticket2);
            c_name := name (extract_customer_info ticket1) |}] /\
    filter (has_email (email (extract_customer_info ticket2))) (customers d2)
      = [{| c_id := cid;
            c_email := email (extract_customer_info ticket2);
            c_name := name (extract_customer_info ticket2) |}].
Proof.
  intros Hd H1 H2 He.
  destruct (process_single_ticket_cases now1 ticket1 d Hd)
    as (r1 & d1' & Hrun1 & Hd1 & Hr1).
  rewrite H1 in Hrun1. injection Hrun1 as <- <-.
  destruct Hr1 as (cid1 & _ & _ & _ & _ & _ & _ & _ & _ & Hf1 & _).
  destruct (process_single_ticket_cases now2 ticket2 d1 Hd1)
    as (r2 & d2' & Hrun2 & Hd2 & Hr2).
  rewrite H2 in Hrun2. injection Hrun2 as <- <-.
  destruct Hr2 as (cid2 & _ & _ & _ & _ & _ & _ & _ & _ & Hf2 & Hfind).
  cbn zeta in Hf1, Hf2, Hfind. rewrite He in Hf1.
  rewrite find_is_filter_head, Hf1 in Hfind. simpl in Hfind.
  destruct Hfind as [-> _].
  exists cid1. split; [exact Hf1 | exact Hf2].
Qed.

End ProcessFacts.

Lemma process_single_ticket_atomic_witness :
  exists r d',
    Main.process_single_ticket (U := ascii_unicode)
      (fun _ => Ok {| Main.summary := lit "Duplicate billing charge";
                      Main.category := lit "billing";
                      Main.priority := lit "critical";
                      Main.sentiment_score := S754_zero false |})
      0 Main.sample_1 Store.empty_db = (r, d') /\
    r = Ok 1 /\
    List.map Store.c_email (Store.customers d') = [lit "sarah.johnson@email.com"] /\
    List.map Store.c_name (Store.customers d') = [lit "Sarah Johnson"] /\
    List.map Store.t_customer_id (Store.tickets d') = [1].
Proof.
  destruct (process_single_ticket_atomic (U := ascii_unicode)
              (fun _ => Ok {| Main.summary := lit "Duplicate billing charge";
                              Main.category := lit "billing";
                              Main.priority := lit "critical";
                              Main.sentiment_score := S754_zero false |})
              0 Main.sample_1 Store.empty_db empty_db_consistent)
    as (r & d' & Hrun & _).
  exists r, d'. split; [exact Hrun|].
  vm_compute in Hrun. injection Hrun as <- <-.
  vm_compute. repeat split; reflexivity.
Defined.

(** A ticket insert that fails after the upsert: the label of the category
    is unknown to the enumeration. The customer row is gone again; only
    the sequence remembers the upsert. *)
Example process_single_ticket_rolls_back :
  Main.process_single_ticket (U := ascii_unicode)
    (fun _ => Ok {| Main.summary := lit "Duplicate billing charge";
                    Main.category := lit "refund";
                    Main.priority := lit "critical";
                    Main.sentiment_score := S754_zero false |})
    0 Main.sample_1 Store.empty_db
  = (Raise InvalidTextRepresentation,
     {| Store.customers := []; Store.tickets := [];
        Store.customers_id_seq := 2; Store.tickets_id_seq := 1 |}).
Proof. vm_compute. reflexivity. Qed.

Lemma upsert_last_write_wins_witness :
  exists d1 d2,
    Main.process_single_ticket (U := ascii_unicode)
      (fun _ => Ok {| Main.summary := lit "s"; Main.category := lit "general";
                      Main.priority := lit "low";
                      Main.sentiment_score := S754_zero false |})
      0 (lit "Email: ann@example.com" ++ [10%N] ++ lit "Name: Ann")
      Store.empty_db = (Ok 1, d1) /\
    Main.process_single_ticket (U := ascii_unicode)
      (fun _ => Ok {| Main.summary := lit "s"; Main.category := lit "general";
                      Main.priority := lit "low";
                      Main.sentiment_score := S754_zero false |})
      1 (lit "Email: ann@example.com" ++ [10%N] ++ lit "Name: Anna B.")
      d1 = (Ok 2, d2) /\
    Store.customers d2
      = [{| Store.c_id := 1; Store.c_email := lit "ann@example.com";
            Store.c_name := lit "Anna B." |}].
Proof.
  eexists _, _. split; [vm_compute; reflexivity|].
  split; [vm_compute; reflexivity|].
  destruct (upsert_last_write_wins (U := ascii_unicode)
              (fun _ => Ok {| Main.summary := lit "s"; Main.category := lit "general";
                              Main.priority := lit "low";
                              Main.sentiment_score := S754_zero false |})
              0 1
              (lit "Email: ann@example.com" ++ [10%N] ++ lit "Name: Ann")
              (lit "Email: ann@example.com" ++ [10%N] ++ lit "Name: Anna B.")
              Store.empty_db _ _ 1 2 empty_db_consistent
              ltac:(vm_compute; reflexivity) ltac:(vm_compute; reflexivity)
              ltac:(vm_compute; reflexivity))
    as (cid & _ & H2).
  vm_compute in H2. vm_compute. injection H2 as <-. reflexivity.
Defined.

(** ** [fetch_recent_tickets] *)

Section FetchFacts.
Import Store Display.

Lemma insert_desc_perm (r : recent_row) (l : list recent_row) :
  Permutation (insert_desc r l) (r :: l).
Proof.
  induction l as [|x l IH]; simpl; [reflexivity|].
  destruct (created_at x <=? created_at r); [reflexivity|].
  rewrite IH. apply perm_swap.
Qed.

Lemma order_by_perm (l : list recent_row) :
  Permutation (order_by_created_at_desc l) l.
Proof.
  induction l as [|r l IH]; simpl; [reflexivity|].
  rewrite insert_desc_perm. now constructor.
Qed.

Lemma insert_desc_sorted (r : recent_row) (l : list recent_row) :
  StronglySorted newer_first l -> StronglySorted newer_first (insert_desc r l).
Proof.
  induction 1 as [|x l Hs IH Hx]; simpl.
  - repeat constructor.
  - destruct (created_at x <=? created_at r) eqn:E.
    + apply Z.leb_le in E. constructor; [now constructor|].
      constructor; [exact E|].
      eapply Forall_impl; [|exact Hx]. unfold newer_first. intros; lia.
    + apply Z.leb_gt in E. constructor; [exact IH|].
      apply (Permutation_Forall (Permutation_sym (insert_desc_perm r l))).
      constructor; [unfold newer_first; lia | exact Hx].
Qed.

Lemma order_by_sorted (l : list recent_row) :
  StronglySorted newer_first (order_by_created_at_desc l).
Proof.
  induction l as [|r l IH]; simpl; [constructor|].
  now apply insert_desc_sorted.
Qed.

Lemma sorted_app_inv (a b : list recent_row) :
  StronglySorted newer_first (a ++ b) ->
  StronglySorted newer_first a /\
  forall x y, In x a -> In y b -> newer_first x y.
Proof.
  induction a as [|z a IH]; simpl; intros H.
  - split; [constructor | intros ? ? []].
  - apply StronglySorted_inv in H as [Hs Hz].
    destruct (IH Hs) as [Ha Hab]. split.
    + constructor; [exact Ha|]. apply Forall_app in Hz. apply Hz.
    + intros x y [<-|Hx] Hy; [|now apply Hab].
      rewrite Forall_forall in Hz. apply Hz, in_or_app. now right.
Qed.

(** Under the primary key of [customers], a ticket that references a
    customer joins with exactly one row. *)
Lemma filter_id_unique (k : Z) (l : list customers_row) :
  NoDup (List.map c_id l) -> In k (List.map c_id l) ->
  List.length (filter (fun c => k =? c_id c) l) = 1%nat.
Proof.
  induction l as [|x l IH]; intros ND Hin; [destruct Hin|].
  simpl in ND. inversion ND as [|? ? Hx ND']; subst. simpl.
  destruct (k =? c_id x) eqn:E.
  - apply Z.eqb_eq in E. subst k. simpl. f_equal.
    assert (F : forall y, In y l -> (c_id x =? c_id y) = false).
    { intros y Hy. apply Z.eqb_neq. intros E. apply Hx. rewrite E.
      now apply in_map. }
    clear -F. induction l as [|y l IH]; [reflexivity|]. simpl.
    rewrite (F y (or_introl eq_refl)). apply IH. intros z Hz. apply F. now right.
  - apply IH; [exact ND'|]. destruct Hin as [Hin|Hin]; [|exact Hin].
    apply Z.eqb_neq in E. congruence.
Qed.

Lemma join_customers_length (d : db) :
  consistent d -> List.length (join_customers d) = List.length (tickets d).
Proof.
  intros Hd. unfold join_customers.
  pose proof (tickets_customer_fkey d Hd) as Hfk.
  pose proof (customers_pkey d Hd) as Hpk.
  induction (tickets d) as [|t ts IH]; [reflexivity|].
  simpl. rewrite length_app, length_map.
  rewrite (filter_id_unique _ _ Hpk (Hfk t (or_introl eq_refl))).
  rewrite IH; [reflexivity|]. intros t' Ht'. apply Hfk. now right.
Qed.

Lemma join_customers_rows (d : db) (r : recent_row) :
  In r (join_customers d) ->
  exists t c,
    In t (tickets d) /\ In c (customers d) /\
    c_id c = t_customer_id t /\ r = joined t c.
Proof.
  unfold join_customers. intros H.
  apply in_flat_map in H as (t & Ht & H).
  apply in_map_iff in H as (c & <- & H).
  apply filter_In in H as [Hc E]. apply Z.eqb_eq in E.
  now exists t, c.
Qed.

Lemma limit_rows_ok {A} (n : Z) (l : list A) :
  0 <= n < 2 ^ 63 -> limit_rows n l = Ok (firstn (Z.to_nat n) l).
Proof.
  intros H. unfold limit_rows.
  destruct (n <? - 2 ^ 63) eqn:E1; [lia|].
  destruct (2 ^ 63 <=? n) eqn:E2; [lia|].
  destruct (n <? 0) eqn:E3; [lia | reflexivity].
Qed.

Lemma limit_rows_inv {A} (n : Z) (l rows : list A) :
  limit_rows n l = Ok rows ->
  0 <= n < 2 ^ 63 /\ rows = firstn (Z.to_nat n) l.
Proof.
  unfold limit_rows.
  destruct (n <? - 2 ^ 63) eqn:E1; [discriminate|].
  destruct (2 ^ 63 <=? n) eqn:E2; [discriminate|].
  destruct (n <? 0) eqn:E3; [discriminate|].
  intros [= <-]. split; [lia | reflexivity].
Qed.

(** C7, as the code has it: for a limit that is not negative and fits the
    64-bit parameter of the statement (5 when the argument is left out),
    on a store that satisfies the schema, the call returns
    [min(limit, number of tickets)] rows: at most [limit], exactly
    [limit] when there are more tickets, none when there are none. Each
    row is a ticket joined to its customer, the rows are in descending
    order of [created_at], and no row left out is more recent than a row
    returned. *)
Theorem fetch_recent_tickets_spec (limit : option Z) (d : db) :
  consistent d ->
  0 <= or_default limit 5 < 2 ^ 63 ->
  exists rows,
    fetch_recent_tickets limit d = Ok rows /\
    len rows = Z.min (or_default limit 5) (len (tickets d)) /\
    len rows <= or_default limit 5 /\
    (or_default limit 5 < len (tickets d) -> len rows = or_default limit 5) /\
    (tickets d = [] -> rows = []) /\
    Forall (fun r =>
              exists t c,
                In t (tickets d) /\ In c (customers d) /\
                c_id c = t_customer_id t /\ r = joined t c) rows /\
    StronglySorted newer_first rows /\
    exists rest,
      Permutation (rows ++ rest) (join_customers d) /\
      forall r r', In r rows -> In r' rest -> created_at r' <= created_at r.
Proof.
  intros Hd Hl. unfold fetch_recent_tickets.
  set (n := or_default limit 5) in *.
  set (sorted := order_by_created_at_desc (join_customers d)).
  rewrite (limit_rows_ok n sorted Hl).
  exists (firstn (Z.to_nat n) sorted). split; [reflexivity|].
  assert (Hlen : len (firstn (Z.to_nat n) sorted) = Z.min n (len (tickets d))).
  { unfold len. rewrite length_firstn. unfold sorted.
    rewrite (Permutation_length (order_by_perm _)), (join_customers_length d Hd).
    lia. }
  assert (Hs : StronglySorted newer_first
                 (firstn (Z.to_nat n) sorted ++ skipn (Z.to_nat n) sorted)).
  { rewrite firstn_skipn. apply order_by_sorted. }
  apply sorted_app_inv in Hs as [Hs Hrest].
  split; [exact Hlen|]. split; [lia|]. split; [lia|]. split.
  { intros Ht. rewrite Ht in Hlen. unfold len in Hlen. simpl in Hlen.
    destruct (firstn (Z.to_nat n) sorted); [reflexivity|]. simpl in Hlen. lia. }
  split.
  { apply Forall_forall. intros r Hr. apply join_customers_rows.
    apply (Permutation_in r (order_by_perm _)). fold sorted.
    rewrite <- (firstn_skipn (Z.to_nat n) sorted). apply in_or_app. now left. }
  split; [exact Hs|].
  exists (skipn (Z.to_nat n) sorted). split.
  - rewrite firstn_skipn. apply order_by_perm.
  - intros r r' Hr Hr'. apply (Hrest r r' Hr Hr').
Qed.

End FetchFacts.

Lemma two_tickets_consistent : Store.consistent Fixtures.two_tickets.
Proof.
  constructor; simpl.
  - intros c [<-|[]]. simpl. lia.
  - repeat constructor. intros [].
  - repeat constructor. intros [].
  - intros t [<-|[<-|[]]]; simpl; lia.
  - repeat constructor; simpl; intuition lia.
  - intros t [<-|[<-|[]]]; simpl; auto.
Qed.

Lemma fetch_recent_tickets_spec_witness :
  exists r,
    Display.fetch_recent_tickets (Some 1) Fixtures.two_tickets = Ok [r] /\
    Store.id r = 2 /\ Store.customer_name r = lit "Ann".
Proof.
  destruct (fetch_recent_tickets_spec (Some 1) Fixtures.two_tickets
              two_tickets_consistent)
    as (rows & Hf & _).
  - simpl. lia.
  - vm_compute in Hf. injection Hf as <-.
    eexists. split; [vm_compute; reflexivity|]. split; reflexivity.
Defined.

(** C7 as stated fails for a negative limit: the engine rejects the
    statement, and the call raises even on a store without tickets. *)
Lemma fetch_recent_tickets_negative_limit :
  Display.fetch_recent_tickets (Some (-1)) Store.empty_db
    = Raise InvalidRowCountInLimitClause /\
  Display.fetch_recent_tickets (Some (-1)) Store.empty_db <> Ok [].
Proof. split; [reflexivity | discriminate]. Qed.

(** Nor does every limit that is not negative give rows: [2 ** 63] does
    not fit the parameter, and the call raises. *)
Example fetch_recent_tickets_limit_out_of_range :
  Display.fetch_recent_tickets (Some (2 ^ 63)) Store.empty_db = Raise DataError.
Proof. reflexivity. Qed.

(** ** Floats *)

Section FloatFacts.
Import Display.

Lemma digits2_pos_lt (p : positive) : Zpos p < 2 ^ Zpos (digits2_pos p).
Proof.
  induction p as [p IH|p IH|]; simpl digits2_pos.
  - rewrite Pos2Z.inj_succ, Z.pow_succ_r by lia. lia.
  - rewrite Pos2Z.inj_succ, Z.pow_succ_r by lia. lia.
  - reflexivity.
Qed.

Lemma digits2_pos_ge (p : positive) : 2 ^ (Zpos (digits2_pos p) - 1) <= Zpos p.
Proof.
  induction p as [p IH|p IH|]; simpl digits2_pos.
  - rewrite Pos2Z.inj_succ. replace (Z.succ (Zpos (digits2_pos p)) - 1)
      with (Z.succ (Zpos (digits2_pos p) - 1)) by lia.
    rewrite Z.pow_succ_r by lia. lia.
  - rewrite Pos2Z.inj_succ. replace (Z.succ (Zpos (digits2_pos p)) - 1)
      with (Z.succ (Zpos (digits2_pos p) - 1)) by lia.
    rewrite Z.pow_succ_r by lia. lia.
  - simpl. lia.
Qed.

(** A number below [2 ^ n] has at most [n] binary digits. *)
Lemma Zdigits2_bound (z n : Z) : 0 <= n -> 0 <= z < 2 ^ n -> Zdigits2 z <= n.
Proof.
  intros Hn [H0 Hz]. destruct z as [|p|p]; simpl; [lia| |lia].
  pose proof (digits2_pos_ge p) as G.
  destruct (Z_le_gt_dec (Zpos (digits2_pos p)) n) as [L|L]; [exact L|].
  exfalso.
  assert (2 ^ n <= 2 ^ (Zpos (digits2_pos p) - 1)) by (apply Z.pow_le_mono_r; lia).
  lia.
Qed.

Lemma shr_1_bounds (r : shr_record) :
  0 <= shr_m r -> 0 <= shr_m (shr_1 r) <= shr_m r.
Proof.
  destruct r as [m a b]. simpl. intros H.
  destruct m as [|[p|p|]|p]; simpl; lia.
Qed.

Lemma iter_shr_1_bounds (p : positive) : forall r,
  0 <= shr_m r -> 0 <= shr_m (iter_pos shr_1 p r) <= shr_m r.
Proof.
  induction p as [p IH|p IH|]; intros r H; simpl.
  - pose proof (shr_1_bounds r H) as H1.
    pose proof (IH (shr_1 r) (proj1 H1)) as H2.
    pose proof (IH _ (proj1 H2)) as H3. lia.
  - pose proof (IH r H) as H2.
    pose proof (IH _ (proj1 H2)) as H3. lia.
  - now apply shr_1_bounds.
Qed.

(** Shifting right keeps the mantissa between 0 and what it was, and the
    exponent becomes the larger of the old one and the one asked for. *)
Lemma shr_fexp_bounds (m e : Z) (l : location) :
  0 <= m ->
  0 <= shr_m (fst (shr_fexp prec emax m e l)) <= m /\
  snd (shr_fexp prec emax m e l) = Z.max e (fexp prec emax (Zdigits2 m + e)).
Proof.
  intros Hm. unfold shr_fexp, shr.
  assert (Hr : shr_m (shr_record_of_loc m l) = m)
    by (destruct l as [|[]]; reflexivity).
  destruct (fexp prec emax (Zdigits2 m + e) - e) as [|p|p] eqn:E; simpl.
  - rewrite Hr. lia.
  - pose proof (iter_shr_1_bounds p (shr_record_of_loc m l)) as B.
    rewrite Hr in B. specialize (B Hm). lia.
  - rewrite Hr. lia.
Qed.

Lemma round_nearest_even_bounds (m : Z) (l : location) :
  0 <= m -> 0 <= round_nearest_even m l <= m + 1.
Proof.
  intros H. unfold round_nearest_even.
  destruct l as [|[]]; try destruct (Z.even m); lia.
Qed.

(** Rounding a product whose exponent is far below the largest one never
    overflows: the result is a zero or a finite number of the same sign. *)
Lemma binary_round_aux_finite (s : bool) (m e : Z) :
  0 < m < 2 ^ 106 -> e <= -98 ->
  binary_round_aux prec emax s m e loc_Exact = S754_zero s \/
  exists m' e', binary_round_aux prec emax s m e loc_Exact = S754_finite s m' e'.
Proof.
  intros Hm He. unfold binary_round_aux.
  pose proof (shr_fexp_bounds m e loc_Exact ltac:(lia)) as [B1 E1].
  destruct (shr_fexp prec emax m e loc_Exact) as [mrs' e'] eqn:S1.
  simpl in B1, E1.
  set (m1 := round_nearest_even (shr_m mrs') (loc_of_shr_record mrs')).
  pose proof (round_nearest_even_bounds (shr_m mrs') (loc_of_shr_record mrs')
                ltac:(lia)) as R1. fold m1 in R1.
  pose proof (shr_fexp_bounds m1 e' loc_Exact ltac:(lia)) as [B2 E2].
  destruct (shr_fexp prec emax m1 e' loc_Exact) as [mrs'' e''] eqn:S2.
  simpl in B2, E2.
  assert (D0 : Zdigits2 m <= 106) by (apply Zdigits2_bound; lia).
  assert (D1 : Zdigits2 m1 <= 107).
  { apply Zdigits2_bound; [lia|]. change (2 ^ 107) with (2 * 2 ^ 106). lia. }
  unfold fexp, emin, prec, emax in E1, E2.
  destruct (shr_m mrs'') as [|p|p] eqn:M; [now left | | lia].
  right. destruct (e'' <=? emax - prec) eqn:L.
  - now exists p, e''.
  - apply Z.leb_gt in L. unfold emax, prec in L. lia.
Qed.

(** A score of the unit interval times [100.0] is a zero or a positive
    finite number. *)
Lemma score_times_100 (score : float) :
  in_unit_interval score ->
  (exists s, float_mul score float_100 = S754_zero s) \/
  exists m e, float_mul score float_100 = S754_finite false m e.
Proof.
  intros (Hv & H0 & H1). unfold float_mul.
  destruct score as [s|s| |s m e].
  - left. now exists (xorb s false).
  - destruct s; [vm_compute in H0 | vm_compute in H1]; discriminate.
  - vm_compute in H0. discriminate.
  - destruct s; [vm_compute in H0; discriminate|].
    unfold SFmul, float_100. cbn [xorb].
    unfold float_le, SFleb, SFcompare, float_1 in H1.
    assert (He : e <= -52).
    { destruct (Z.compare_spec e (-52)); [lia|lia|discriminate]. }
    simpl in Hv. unfold bounded, canonical_mantissa in Hv.
    apply andb_true_iff in Hv as [Hc _]. apply Z.eqb_eq in Hc.
    unfold fexp, emin, prec, emax in Hc.
    assert (Hm : Zpos m < 2 ^ 53).
    { pose proof (digits2_pos_lt m) as L.
      assert (2 ^ Zpos (digits2_pos m) <= 2 ^ 53)
        by (apply Z.pow_le_mono_r; lia). lia. }
    destruct (binary_round_aux_finite false
                (Zpos (m * 0x19000000000000)) (e + -46)) as [Z|(m' & e' & F)].
    + rewrite Pos2Z.inj_mul. change (2 ^ 106) with (2 ^ 53 * 2 ^ 53).
      split; [lia|]. apply Z.mul_lt_mono_nonneg; lia.
    + lia.
    + left. now exists false.
    + right. now exists m', e'.
Qed.

Lemma SFcompare_antisym (x y : float) :
  SFcompare y x = option_map CompOpp (SFcompare x y).
Proof.
  destruct x as [sx|sx| |sx mx ex], y as [sy|sy| |sy my ey]; simpl;
    try reflexivity;
    try (destruct sx; reflexivity); try (destruct sy; reflexivity);
    try (destruct sx, sy; reflexivity).
  destruct sx, sy; try reflexivity; simpl; f_equal;
    rewrite (Z.compare_antisym ex ey);
    destruct (ex ?= ey); simpl; try reflexivity.
  - rewrite (Pos.compare_cont_antisym mx my Eq). reflexivity.
  - rewrite (Pos.compare_cont_antisym mx my Eq). reflexivity.
Qed.

Lemma float_le_not_lt (x y : float) :
  float_le x y = true -> float_lt y x = false.
Proof.
  unfold float_le, float_lt, SFleb, SFltb. rewrite (SFcompare_antisym x y).
  destruct (SFcompare x y) as [[]|]; simpl; congruence.
Qed.

Lemma above_0_6_not_below_0_4 (score : float) :
  float_le float_0_6 score = true -> float_lt score float_0_4 = false.
Proof.
  unfold float_le, float_lt, SFleb, SFltb, float_0_6, float_0_4.
  destruct score as [s|s| |s m e]; cbn [SFcompare].
  - destruct s; discriminate.
  - destruct s; [discriminate | reflexivity].
  - discriminate.
  - destruct s; [discriminate|].
    destruct (Z.compare_spec (-53) e) as [<-|L|G]; intros H.
    + reflexivity.
    + destruct (Z.compare_spec e (-54)); try lia; reflexivity.
    + discriminate.
Qed.

Example float_0_4_is_the_literal : float_0_4 = float_of_ratio 4 10.
Proof. vm_compute. reflexivity. Qed.

Example float_0_6_is_the_literal : float_0_6 = float_of_ratio 6 10.
Proof. vm_compute. reflexivity. Qed.

Example float_100_is_the_integer :
  float_100 = binary_normalize prec emax 100 0 false.
Proof. vm_compute. reflexivity. Qed.

Section Sentiment.
Context {U : Unicode}.

(** C6: for a score of the unit interval the text is the decimal numeral
    of [floor(score * 100)], the product being the binary64 product, then
    ["% "] and the indicator of the tier. A score below [0.4] is of the
    negative tier (red), one from [0.4] and below [0.6] of the neutral
    tier (yellow), one from [0.6] of the positive tier (green); so [0.39]
    is negative, [0.40] and [0.59] are neutral and [0.60] is positive. *)
Theorem format_sentiment_spec :
  (forall score,
     in_unit_interval score ->
     exists percentage,
       floor (float_mul score float_100) = Some percentage /\
       format_sentiment score
         = Ok (str_of_int percentage ++ lit "% " ++ get_sentiment_emoji score)) /\
  (forall score,
     float_lt score float_0_4 = true ->
     get_sentiment_color score = lit "red" /\
     get_sentiment_emoji score = emoji_negative) /\
  (forall score,
     float_le float_0_4 score = true -> float_lt score float_0_6 = true ->
     get_sentiment_color score = lit "yellow" /\
     get_sentiment_emoji score = emoji_neutral) /\
  (forall score,
     float_le float_0_6 score = true ->
     get_sentiment_color score = lit "green" /\
     get_sentiment_emoji score = emoji_positive) /\
  List.map get_sentiment_color
    [float_of_ratio 39 100; float_of_ratio 40 100;
     float_of_ratio 59 100; float_of_ratio 60 100]
    = [lit "red"; lit "yellow"; lit "yellow"; lit "green"] /\
  List.map get_sentiment_emoji
    [float_of_ratio 39 100; float_of_ratio 40 100;
     float_of_ratio 59 100; float_of_ratio 60 100]
    = [emoji_negative; emoji_neutral; emoji_neutral; emoji_positive].
Proof.
  split; [|split; [|split; [|split; [|split]]]].
  - intros score H. unfold format_sentiment.
    destruct (score_times_100 score H) as [[s ->] | (m & e & ->)]; simpl.
    + now exists 0.
    + now eexists.
  - intros score H. unfold get_sentiment_color, get_sentiment_emoji.
    now rewrite H.
  - intros score H4 H6. unfold get_sentiment_color, get_sentiment_emoji.
    now rewrite (float_le_not_lt _ _ H4), H6.
  - intros score H6. unfold get_sentiment_color, get_sentiment_emoji.
    assert (H4 : float_lt score float_0_4 = false)
      by (apply (above_0_6_not_below_0_4 score H6)).
    now rewrite H4, (float_le_not_lt _ _ H6).
  - vm_compute. reflexivity.
  - vm_compute. reflexivity.
Qed.

End Sentiment.

End FloatFacts.

(** The product is the binary64 product: [0.29 * 100] is the float just
    below 29, and [0.35 * 100], whose exact value lies just below 35,
    rounds to the float 35. *)
Example format_sentiment_rounding :
  Display.format_sentiment (Display.float_of_ratio 29 100)
    = Ok (lit "28% " ++ Display.emoji_negative) /\
  Display.format_sentiment (Display.float_of_ratio 35 100)
    = Ok (lit "35% " ++ Display.emoji_negative).
Proof. vm_compute. split; reflexivity. Qed.

Lemma format_sentiment_spec_witness :
  Display.format_sentiment (Display.float_of_ratio 15 100)
    = Ok (lit "15% " ++ Display.emoji_negative) /\
  Display.get_sentiment_color (Display.float_of_ratio 15 100) = lit "red".
Proof.
  destruct (format_sentiment_spec) as (Hf & Hneg & _).
  destruct (Hf (Display.float_of_ratio 15 100)) as (p & Hp & Hs).
  { vm_compute. repeat split; reflexivity. }
  vm_compute in Hp. injection Hp as <-.
  split.
  - rewrite Hs. vm_compute. reflexivity.
  - apply Hneg. vm_compute. reflexivity.
Defined.

(** ** [display_recent_tickets] *)

Section DisplayFacts.
Context {U : Unicode}.
Import Store Display.

Lemma filter_key_unique {A} (key : A -> Z) (k : Z) (l : list A) :
  NoDup (List.map key l) -> In k (List.map key l) ->
  List.length (filter (fun x => key x =? k) l) = 1%nat.
Proof.
  induction l as [|x l IH]; intros ND Hin; [destruct Hin|].
  simpl in ND. inversion ND as [|? ? Hx ND']; subst. simpl.
  destruct (key x =? k) eqn:E.
  - apply Z.eqb_eq in E. subst k. simpl. f_equal.
    assert (F : forall y, In y l -> (key y =? key x) = false).
    { intros y Hy. apply Z.eqb_neq. intros E. apply Hx. rewrite <- E.
      now apply in_map. }
    clear -F. induction l as [|y l IH]; [reflexivity|]. simpl.
    rewrite (F y (or_introl eq_refl)). apply IH. intros z Hz. apply F. now right.
  - apply IH; [exact ND'|]. destruct Hin as [Hin|Hin]; [|exact Hin].
    apply Z.eqb_neq in E. congruence.
Qed.






End DisplayFacts.


(** A highlight id of 0 marks no row, although a ticket has the id 0. *)
Example display_ignores_highlight_id_zero :
  Display.render_rows (U := ascii_unicode) (Some 0)
    [{| Store.id := 0; Store.summary := lit "zero";
        Store.category := lit "general"; Store.priority := lit "low";
        Store.sentiment_score := Display.float_of_ratio 50 100;
        Store.created_at := 1; Store.customer_name := lit "Ann";
        Store.customer_email := lit "ann@example.com" |}]
  = Ok [{| Display.cell_id := lit "0";
           Display.cell_customer := lit "Ann";
           Display.cell_summary := lit "zero";
           Display.cell_category :=
             {| Display.plain := lit "General"; Display.style := lit "white" |};
           Display.cell_priority :=
             {| Display.plain := lit "LOW"; Display.style := lit "green" |};
           Display.cell_sentiment :=
             {| Display.plain := lit "50% " ++ Display.emoji_neutral;
                Display.style := lit "yellow" |};
           Display.row_style := None |}].
Proof. vm_compute. reflexivity. Qed.

(** The row of the end-to-end scenario: the priority upper-cased and bold,
    the sentiment at 15 per cent in the colour of the negative tier. *)
Example render_row_critical_billing :
  Display.render_row (U := ascii_unicode) (Some 1)
    {| Store.id := 1; Store.summary := lit "Duplicate billing charge";
       Store.category := lit "billing"; Store.priority := lit "critical";
       Store.sentiment_score := Display.float_of_ratio 15 100;
       Store.created_at := 0; Store.customer_name := lit "Sarah Johnson";
       Store.customer_email := lit "sarah.johnson@email.com" |}
  = Ok {| Display.cell_id := lit "1";
          Display.cell_customer := lit "Sarah Johnson";
          Display.cell_summary := lit "Duplicate billing charge";
          Display.cell_category :=
            {| Display.plain := lit "Billing"; Display.style := lit "cyan" |};
          Display.cell_priority :=
            {| Display.plain := lit "CRITICAL";
               Display.style := lit "bright_red bold" |};
          Display.cell_sentiment :=
            {| Display.plain := lit "15% " ++ Display.emoji_negative;
               Display.style := lit "red" |};
          Display.row_style := Display.highlight |}.
Proof. vm_compute. reflexivity. Qed.

(* ===================================================================== *)
(** * Part III. Further properties of the code                             *)
(* ===================================================================== *)

(** ** Interactive entry *)

Section InteractiveFacts.
Context {U : Unicode}.
Import Main Terms.

Lemma split_no_sep (sep : char) (s : str) :
  ~ In sep s -> split sep s = [s].
Proof.
  induction s as [|c s IH]; intros H; simpl; [reflexivity|].
  destruct (N.eqb_spec c sep) as [->|Hc]; [exfalso; apply H; now left|].
  rewrite IH; [reflexivity|]. intros Hin. apply H. now right.
Qed.

Lemma split_app_sep (sep : char) (p rest : str) :
  ~ In sep p -> split sep (p ++ sep :: rest) = p :: split sep rest.
Proof.
  induction p as [|c p IH]; intros H; simpl.
  - now rewrite N.eqb_refl.
  - destruct (N.eqb_spec c sep) as [->|Hc]; [exfalso; apply H; now left|].
    rewrite IH; [reflexivity|]. intros Hin. apply H. now right.
Qed.

(** Splitting what was joined gives the parts back, when there is at
    least one part and no part holds the separator. *)
Lemma split_join (sep : char) (lines : list str) :
  lines <> [] -> Forall (fun l => ~ In sep l) lines ->
  split sep (join [sep] lines) = lines.
Proof.
  induction lines as [|p [|q ps] IH]; intros Hne Hall; [congruence| |].
  - simpl. apply split_no_sep. now inversion Hall.
  - inversion Hall as [|? ? Hp Hrest]; subst.
    change (join [sep] (p :: q :: ps)) with (p ++ sep :: join [sep] (q :: ps)).
    rewrite (split_app_sep sep p _ Hp). f_equal.
    apply IH; [discriminate | exact Hrest].
Qed.

Lemma read_until_end_marker (before : list str) (e : str) (after : list str) :
  forall acc,
    (forall l, In l before -> is_end_marker l = false) ->
    is_end_marker e = true ->
    read_until_end (before ++ e :: after) acc = (acc ++ before, after).
Proof.
  induction before as [|l before IH]; intros acc Hb He; simpl.
  - unfold is_end_marker in He. rewrite He. now rewrite app_nil_r.
  - pose proof (Hb l (or_introl eq_refl)) as Hl. unfold is_end_marker in Hl.
    rewrite Hl, IH; [|intros l' Hin; apply Hb; now right | exact He].
    now rewrite <- app_assoc.
Qed.

Lemma read_until_end_eof (stdin : list str) : forall acc,
  (forall l, In l stdin -> is_end_marker l = false) ->
  read_until_end stdin acc = (acc ++ stdin, []).
Proof.
  induction stdin as [|l stdin IH]; intros acc H; simpl.
  - now rewrite app_nil_r.
  - pose proof (H l (or_introl eq_refl)) as Hl. unfold is_end_marker in Hl.
    rewrite Hl, IH; [|intros l' Hin; apply H; now right].
    now rewrite <- app_assoc.
Qed.

Lemma read_until_end_marker_ticket
    (before : list str) (e : str) (after : list str) :
  (forall l, In l before -> is_end_marker l = false) ->
  is_end_marker e = true ->
  fst (get_interactive_ticket (before ++ e :: after)) = join [10%N] before.
Proof.
  intros Hb He. unfold get_interactive_ticket.
  now rewrite (read_until_end_marker before e after [] Hb He).
Qed.

(** X1: interactive entry stops at the first line that is [END] once
    stripped and upper-cased. The ticket is the lines before it joined by
    newlines; the marker is not part of it, and the lines after it are
    left unread. *)
Theorem get_interactive_ticket_until_end
    (before : list str) (e : str) (after : list str) :
  (forall l, In l before -> is_end_marker l = false) ->
  is_end_marker e = true ->
  get_interactive_ticket (before ++ e :: after) = (join [10%N] before, after).
Proof.
  intros Hb He. unfold get_interactive_ticket.
  now rewrite (read_until_end_marker before e after [] Hb He).
Qed.

(** X2: when standard input ends without a marker line, the ticket is
    everything that was read. *)
Theorem get_interactive_ticket_eof (stdin : list str) :
  (forall l, In l stdin -> is_end_marker l = false) ->
  get_interactive_ticket stdin = (join [10%N] stdin, []).
Proof.
  intros H. unfold get_interactive_ticket.
  now rewrite (read_until_end_eof stdin [] H).
Qed.

(** X3: the name of a ticket entered interactively is looked for in
    exactly the lines that were entered before the marker, in their
    order. *)
Theorem interactive_ticket_name_from_lines
    (before : list str) (e : str) (after : list str) :
  before <> [] ->
  Forall (fun l => ~ In 10%N l) before ->
  (forall l, In l before -> is_end_marker l = false) ->
  is_end_marker e = true ->
  name (extract_customer_info (fst (get_interactive_ticket (before ++ e :: after))))
  = or_else (scan_name before) (lit "Unknown Customer").
Proof.
  intros Hne Hlf Hb He.
  rewrite (read_until_end_marker_ticket before e after Hb He).
  unfold extract_customer_info. cbv zeta. cbn [name].
  pose proof (split_join 10%N before Hne Hlf) as E.
  unfold str, char in *. now rewrite E.
Qed.

End InteractiveFacts.

Lemma get_interactive_ticket_until_end_witness :
  Main.get_interactive_ticket (U := ascii_unicode)
    [lit "My printer is on fire"; lit "Name: Bob"; lit "  end "; lit "ignored"]
  = (lit "My printer is on fire" ++ [10%N] ++ lit "Name: Bob", [lit "ignored"]).
Proof.
  apply (get_interactive_ticket_until_end (U := ascii_unicode)
           [lit "My printer is on fire"; lit "Name: Bob"] (lit "  end ")
           [lit "ignored"]).
  - intros l [<-|[<-|[]]]; vm_compute; reflexivity.
  - vm_compute. reflexivity.
Defined.

Lemma get_interactive_ticket_eof_witness :
  Main.get_interactive_ticket (U := ascii_unicode)
    [lit "The end is near"; lit "Name: Bob"]
  = (lit "The end is near" ++ [10%N] ++ lit "Name: Bob", []).
Proof.
  apply (get_interactive_ticket_eof (U := ascii_unicode)
           [lit "The end is near"; lit "Name: Bob"]).
  intros l [<-|[<-|[]]]; vm_compute; reflexivity.
Defined.

Lemma interactive_ticket_name_from_lines_witness :
  Main.name
    (Main.extract_customer_info (U := ascii_unicode)
       (fst (Main.get_interactive_ticket (U := ascii_unicode)
               [lit "My printer is on fire"; lit "Name: Bob"; lit "END"])))
  = lit "Bob".
Proof.
  apply (interactive_ticket_name_from_lines (U := ascii_unicode)
           [lit "My printer is on fire"; lit "Name: Bob"] (lit "END") []).
  - discriminate.
  - repeat constructor; vm_compute; intros H;
      repeat (destruct H as [H|H]; [discriminate H|]); exact H.
  - intros l [<-|[<-|[]]]; vm_compute; reflexivity.
  - vm_compute. reflexivity.
Defined.

(** ** [truncate_text], again *)

Section TruncateFacts.
Import Display.

Lemma truncate_text_long_len (text : str) (max_length : Z) :
  3 <= max_length -> max_length < len text ->
  len (truncate_text text max_length) = max_length.
Proof.
  intros H3 Hlt. unfold truncate_text.
  destruct (len text <=? max_length) eqn:E; [lia|].
  rewrite len_app, slice_to_len by lia. change (len (lit "...")) with 3. lia.
Qed.

(** X4: with a bound of at least 3, truncating twice is truncating once:
    what is shown in a column is stable under another pass. *)
Theorem truncate_text_idempotent (text : str) (max_length : Z) :
  3 <= max_length ->
  truncate_text (truncate_text text max_length) max_length
  = truncate_text text max_length.
Proof.
  intros H3. destruct (Z_le_gt_dec (len text) max_length) as [Hle|Hgt].
  - unfold truncate_text. apply Z.leb_le in Hle. now rewrite Hle, Hle.
  - pose proof (truncate_text_long_len text max_length H3 ltac:(lia)) as L.
    unfold truncate_text at 1. rewrite L, Z.leb_refl. reflexivity.
Qed.

(** X5: a bound below 3 does not bound the result. The slice
    [text[:max_length - 3]] then counts from the end, and a text longer
    than the bound comes back with
    [max(len(text) + max_length - 3, 0) + 3] characters, more than the
    bound. *)
Theorem truncate_text_below_3 (text : str) (max_length : Z) :
  max_length < 3 -> max_length < len text ->
  len (truncate_text text max_length)
    = Z.max 0 (len text + max_length - 3) + 3 /\
  max_length < len (truncate_text text max_length).
Proof.
  intros H3 Hlt. unfold truncate_text.
  destruct (len text <=? max_length) eqn:E; [lia|].
  rewrite len_app. change (len (lit "...")) with 3.
  assert (L : len (slice_to text (max_length - 3))
              = Z.max 0 (len text + max_length - 3)).
  { unfold slice_to, clamp. destruct (max_length - 3 <? 0) eqn:E'; [|lia].
    unfold len in *. rewrite length_firstn. lia. }
  rewrite L. lia.
Qed.

End TruncateFacts.

Lemma truncate_text_idempotent_witness :
  Display.truncate_text
    (Display.truncate_text (lit "Bartholomew Higgins") 15) 15
  = lit "Bartholomew ...".
Proof.
  rewrite (truncate_text_idempotent (lit "Bartholomew Higgins") 15); [|lia].
  reflexivity.
Defined.

Lemma truncate_text_below_3_witness :
  len (Display.truncate_text (lit "abcdef") 0) = 6.
Proof.
  destruct (truncate_text_below_3 (lit "abcdef") 0) as [H _].
  - lia.
  - vm_compute. reflexivity.
  - rewrite H. reflexivity.
Defined.

(** ** Scores outside the unit interval *)

Section ScoreFacts.
Context {U : Unicode}.
Import Display Terms.

(** Rounding a positive mantissa gives a zero, a finite number or an
    infinity, never a NaN. *)
Lemma binary_round_aux_not_nan (s : bool) (m e : Z) (l : location) :
  0 < m -> binary_round_aux prec emax s m e l <> S754_nan.
Proof.
  intros Hm. unfold binary_round_aux.
  pose proof (shr_fexp_bounds m e l ltac:(lia)) as [B1 _].
  destruct (shr_fexp prec emax m e l) as [mrs' e'].
  simpl in B1.
  set (m1 := round_nearest_even (shr_m mrs') (loc_of_shr_record mrs')).
  pose proof (round_nearest_even_bounds (shr_m mrs') (loc_of_shr_record mrs')
                ltac:(lia)) as R1. fold m1 in R1.
  pose proof (shr_fexp_bounds m1 e' loc_Exact ltac:(lia)) as [B2 _].
  destruct (shr_fexp prec emax m1 e' loc_Exact) as [mrs'' e''].
  simpl in B2.
  destruct (shr_m mrs'') as [|p|p]; [discriminate| |lia].
  destruct (e'' <=? emax - prec); discriminate.
Qed.

Lemma float_mul_100_nan (score : float) :
  float_mul score float_100 = S754_nan <-> score = S754_nan.
Proof.
  unfold float_mul, float_100. split.
  - destruct score as [s|s| |s m e]; simpl; try discriminate; [reflexivity|].
    intros H. exfalso. revert H. apply binary_round_aux_not_nan. lia.
  - intros ->. reflexivity.
Qed.

(** X6: [format_sentiment] raises [ValueError] exactly for a NaN score,
    raises [OverflowError] for an infinite one, and raises nothing else. *)
Theorem format_sentiment_errors (score : float) :
  (format_sentiment score = Raise ValueError <-> score = S754_nan) /\
  ((exists s, score = S754_infinity s) ->
   format_sentiment score = Raise OverflowError) /\
  (forall e, format_sentiment score = Raise e ->
             e = ValueError \/ e = OverflowError).
Proof.
  unfold format_sentiment. split; [|split].
  - rewrite <- float_mul_100_nan.
    destruct (float_mul score float_100) as [s|s| |s m e]; simpl;
      split; intros H; try discriminate; reflexivity.
  - intros [s ->]. reflexivity.
  - intros e.
    destruct (float_mul score float_100) as [s|s| |s m e']; simpl;
      intros H; try discriminate; injection H as <-; auto.
Qed.

Lemma float_le_lt_trans (x y z : float) :
  float_le x y = true -> float_lt y z = true -> float_lt x z = true.
Proof.
  unfold float_le, float_lt, SFleb, SFltb, SFcompare.
  destruct x as [sx|sx| |sx mx ex], y as [sy|sy| |sy my ey],
           z as [sz|sz| |sz mz ez];
    try discriminate; try reflexivity;
    repeat match goal with s : bool |- _ => destruct s end;
    try discriminate; try reflexivity.
  all: change (PosDef.Pos.compare_cont Eq) with Pos.compare.
  all: repeat match goal with
       | |- context [Z.compare ?a ?b] => destruct (Z.compare_spec a b)
       | |- context [Pos.compare ?a ?b] => destruct (Pos.compare_spec a b)
       end; simpl; try discriminate; try reflexivity; try lia.
Qed.

(** X7: colour and indicator always name the same tier, and the tier
    never goes down when the score goes up. *)
Theorem sentiment_tier_monotone (x y : float) :
  float_le x y = true ->
  (tier x <= tier y)%nat /\
  get_sentiment_color x
    = nth (tier x) [lit "red"; lit "yellow"; lit "green"] [] /\
  get_sentiment_emoji x
    = nth (tier x) [emoji_negative; emoji_neutral; emoji_positive] [] /\
  get_sentiment_color y
    = nth (tier y) [lit "red"; lit "yellow"; lit "green"] [] /\
  get_sentiment_emoji y
    = nth (tier y) [emoji_negative; emoji_neutral; emoji_positive] [].
Proof.
  intros Hxy. unfold tier, get_sentiment_color, get_sentiment_emoji.
  pose proof (float_le_lt_trans x y float_0_4 Hxy) as T4.
  pose proof (float_le_lt_trans x y float_0_6 Hxy) as T6.
  destruct (float_lt y float_0_4).
  - rewrite (T4 eq_refl). repeat split; reflexivity || lia.
  - destruct (float_lt y float_0_6).
    + rewrite (T6 eq_refl).
      destruct (float_lt x float_0_4); repeat split; reflexivity || lia.
    + destruct (float_lt x float_0_4); [repeat split; reflexivity || lia|].
      destruct (float_lt x float_0_6); repeat split; reflexivity || lia.
Qed.

End ScoreFacts.

Lemma format_sentiment_errors_witness :
  Display.format_sentiment (S754_infinity true) = Raise OverflowError /\
  Display.format_sentiment S754_nan = Raise ValueError.
Proof.
  destruct (format_sentiment_errors (S754_infinity true)) as (_ & Hinf & _).
  destruct (format_sentiment_errors S754_nan) as (Hnan & _).
  split.
  - apply Hinf. now exists true.
  - apply Hnan. reflexivity.
Defined.

Lemma sentiment_tier_monotone_witness :
  (Terms.tier (Display.float_of_ratio 39 100)
   <= Terms.tier (Display.float_of_ratio 40 100))%nat.
Proof.
  apply (sentiment_tier_monotone (Display.float_of_ratio 39 100)
           (Display.float_of_ratio 40 100)).
  vm_compute. reflexivity.
Defined.

(** A finite score can overflow too: the product with 100 is infinite. *)
Example format_sentiment_overflow :
  Display.format_sentiment (SFmax_float Display.prec Display.emax)
  = Raise OverflowError.
Proof. vm_compute. reflexivity. Qed.

(** ** The recency query and the table, again *)

Section WindowFacts.
Context {U : Unicode}.
Import Store Display Terms.

Lemma fetch_unfold (limit : option Z) (d : db) :
  0 <= or_default limit 5 < 2 ^ 63 ->
  fetch_recent_tickets limit d
  = Ok (firstn (Z.to_nat (or_default limit 5))
          (order_by_created_at_desc (join_customers d))).
Proof.
  intros H. unfold fetch_recent_tickets. now apply limit_rows_ok.
Qed.

Lemma fetch_ok_inv (limit : option Z) (d : db) (rows : list recent_row) :
  fetch_recent_tickets limit d = Ok rows ->
  0 <= or_default limit 5 < 2 ^ 63 /\
  rows = firstn (Z.to_nat (or_default limit 5))
           (order_by_created_at_desc (join_customers d)).
Proof.
  unfold fetch_recent_tickets. apply limit_rows_inv.
Qed.

Lemma fetched_rows_joined (limit : option Z) (d : db) (rows : list recent_row) :
  fetch_recent_tickets limit d = Ok rows ->
  forall r, In r rows -> In r (join_customers d).
Proof.
  intros H r Hr. apply fetch_ok_inv in H as [_ ->].
  apply (Permutation_in r (order_by_perm _)).
  rewrite <- (firstn_skipn (Z.to_nat (or_default limit 5))
                (order_by_created_at_desc (join_customers d))).
  apply in_or_app. now left.
Qed.

Lemma NoDup_map_eq {A B} (f : A -> B) (l : list A) (a b : A) :
  NoDup (List.map f l) -> In a l -> In b l -> f a = f b -> a = b.
Proof.
  induction l as [|x l IH]; [intros _ []|]. simpl.
  intros ND Ha Hb E. inversion ND as [|? ? Hx ND']; subst.
  destruct Ha as [->|Ha], Hb as [->|Hb].
  - reflexivity.
  - exfalso. apply Hx. rewrite E. now apply in_map.
  - exfalso. apply Hx. rewrite <- E. now apply in_map.
  - now apply IH.
Qed.

(** With pairwise distinct timestamps the descending order is one. *)
Lemma sorted_perm_unique (l1 : list recent_row) : forall l2,
  Permutation l1 l2 ->
  NoDup (List.map created_at l1) ->
  StronglySorted newer_first l1 ->
  StronglySorted newer_first l2 ->
  l1 = l2.
Proof.
  induction l1 as [|a l1 IH]; intros l2 P ND S1 S2.
  - apply Permutation_nil in P. now subst.
  - destruct l2 as [|b l2].
    { apply Permutation_sym, Permutation_nil in P. discriminate P. }
    assert (E : a = b).
    { pose proof (Permutation_in a P (or_introl eq_refl)) as Ha.
      pose proof (Permutation_in b (Permutation_sym P) (or_introl eq_refl))
        as Hb.
      destruct Ha as [Ha|Ha]; [now symmetry|].
      destruct Hb as [Hb|Hb]; [exact Hb|].
      inversion S1 as [|? ? _ F1]; subst. inversion S2 as [|? ? _ F2]; subst.
      rewrite Forall_forall in F1, F2.
      pose proof (F1 b Hb) as L1. pose proof (F2 a Ha) as L2.
      unfold newer_first in L1, L2.
      apply (NoDup_map_eq created_at (a :: l1) a b ND);
        [now left | now right | lia]. }
    subst b. f_equal.
    apply IH.
    + exact (Permutation_cons_inv P).
    + now inversion ND.
    + now inversion S1.
    + now inversion S2.
Qed.

(** Under the schema every ticket joins with one customer, so the join
    lists the timestamps as the table has them. *)
Lemma join_customers_created_at (d : db) :
  consistent d ->
  List.map created_at (join_customers d) = List.map t_created_at (tickets d).
Proof.
  intros Hd. unfold join_customers.
  pose proof (tickets_customer_fkey d Hd) as Hfk.
  pose proof (customers_pkey d Hd) as Hpk.
  induction (tickets d) as [|t ts IH]; [reflexivity|].
  simpl. rewrite map_app, IH by (intros t' Ht'; apply Hfk; now right).
  pose proof (filter_id_unique _ _ Hpk (Hfk t (or_introl eq_refl))) as L.
  destruct (filter (fun c => t_customer_id t =? c_id c) (customers d))
    as [|c [|c' l]]; try discriminate L.
  reflexivity.
Qed.

(** What the call returns is an answer the engine may give. *)
Lemma fetch_may_answer (limit : option Z) (d : db) (rows : list recent_row) :
  fetch_recent_tickets limit d = Ok rows ->
  may_answer (or_default limit 5) d rows.
Proof.
  intros Hf. apply fetch_ok_inv in Hf as [_ ->].
  exists (order_by_created_at_desc (join_customers d)).
  split; [apply order_by_perm|]. split; [apply order_by_sorted | reflexivity].
Qed.

(** X8: on a store that satisfies the schema and whose tickets have
    pairwise distinct timestamps, a larger limit only adds rows at the
    end: the rows the call returns for a limit are the first rows of every
    answer the engine may give for a larger limit, the answer the call
    itself returns for it among them. *)
Theorem fetch_recent_tickets_prefix
    (n m : Z) (d : db) (rows_n rows_m : list recent_row) :
  consistent d ->
  NoDup (List.map t_created_at (tickets d)) ->
  n <= m ->
  fetch_recent_tickets (Some n) d = Ok rows_n ->
  may_answer m d rows_m ->
  rows_n = firstn (Z.to_nat n) rows_m /\
  (forall rows, fetch_recent_tickets (Some m) d = Ok rows -> rows = rows_m).
Proof.
  intros Hd ND Hnm Hn (sorted & P & S & ->).
  assert (E : order_by_created_at_desc (join_customers d) = sorted).
  { apply sorted_perm_unique.
    - rewrite P. apply order_by_perm.
    - apply (Permutation_NoDup
               (Permutation_map created_at (Permutation_sym (order_by_perm _)))).
      now rewrite (join_customers_created_at d Hd).
    - apply order_by_sorted.
    - exact S. }
  split.
  - apply fetch_ok_inv in Hn as [H0 ->]. cbn [or_default] in *.
    rewrite E, firstn_firstn. f_equal. lia.
  - intros rows Hm. apply fetch_ok_inv in Hm as [_ ->]. cbn [or_default].
    now rewrite E.
Qed.

Lemma NoDup_firstn {A} (n : nat) (l : list A) : NoDup l -> NoDup (firstn n l).
Proof.
  intros H. rewrite <- (firstn_skipn n l) in H.
  now apply NoDup_app_remove_r in H.
Qed.

(** Under the schema every ticket joins with one customer, so the join
    lists the ticket ids as the table has them. *)
Lemma join_customers_ids (d : db) :
  consistent d -> List.map id (join_customers d) = List.map t_id (tickets d).
Proof.
  intros Hd. unfold join_customers.
  pose proof (tickets_customer_fkey d Hd) as Hfk.
  pose proof (customers_pkey d Hd) as Hpk.
  induction (tickets d) as [|t ts IH]; [reflexivity|].
  simpl. rewrite map_app, IH by (intros t' Ht'; apply Hfk; now right).
  pose proof (filter_id_unique _ _ Hpk (Hfk t (or_introl eq_refl))) as L.
  destruct (filter (fun c => t_customer_id t =? c_id c) (customers d))
    as [|c [|c' l]]; try discriminate L.
  reflexivity.
Qed.

(** X9: on a store that satisfies the schema the rows fetched have
    pairwise distinct ids, each the id of a ticket of the store; so a
    highlight id can match one row at most. *)
Theorem fetch_recent_tickets_distinct_ids
    (limit : option Z) (d : db) (rows : list recent_row) :
  consistent d ->
  fetch_recent_tickets limit d = Ok rows ->
  NoDup (List.map id rows) /\
  (forall r, In r rows -> In (id r) (List.map t_id (tickets d))) /\
  forall h : Z,
    (List.length (filter (fun r => Z.eqb (id r) h) rows) <= 1)%nat.
Proof.
  intros Hd Hf.
  assert (ND : NoDup (List.map id rows)).
  { apply fetch_ok_inv in Hf as [_ ->]. rewrite <- firstn_map.
    apply NoDup_firstn.
    apply (Permutation_NoDup
             (Permutation_map id (Permutation_sym (order_by_perm _)))).
    rewrite (join_customers_ids d Hd). apply (tickets_pkey d Hd). }
  split; [exact ND|]. split.
  - intros r Hr. rewrite <- (join_customers_ids d Hd).
    apply in_map. apply (fetched_rows_joined limit d rows Hf r Hr).
  - intros h. destruct (in_dec Z.eq_dec h (List.map id rows)) as [Hin|Hout].
    + now rewrite (filter_key_unique id h rows ND Hin).
    + assert (E : filter (fun r => id r =? h) rows = []).
      { clear -Hout. induction rows as [|r rows IH]; [reflexivity|]. simpl.
        destruct (Z.eqb_spec (id r) h) as [E|E].
        - exfalso. apply Hout. left. exact E.
        - apply IH. intros Hin. apply Hout. now right. }
      rewrite E. simpl. lia.
Qed.

End WindowFacts.

Section TableFacts.
Context {U : Unicode}.
Import Store Display.

Lemma fetched_length (limit : option Z) (d : db) (rows : list recent_row) :
  consistent d ->
  fetch_recent_tickets limit d = Ok rows ->
  len rows = Z.min (or_default limit 5) (len (tickets d)).
Proof.
  intros Hd Hf. apply fetch_ok_inv in Hf as [H0 ->].
  unfold len. rewrite length_firstn.
  rewrite (Permutation_length (order_by_perm _)), (join_customers_length d Hd).
  lia.
Qed.

Lemma render_row_of_format (highlight_id : option Z) (ticket : recent_row)
    (text : str) :
  format_sentiment (sentiment_score ticket) = Ok text ->
  exists row, render_row highlight_id ticket = Ok row.
Proof.
  intros H. unfold render_row. rewrite H. eexists. reflexivity.
Qed.

Lemma render_row_raises (highlight_id : option Z) (ticket : recent_row)
    (e : exn) :
  format_sentiment (sentiment_score ticket) = Raise e ->
  render_row highlight_id ticket = Raise e.
Proof. intros H. unfold render_row. now rewrite H. Qed.

(** The loop over the tickets stops at the first ticket whose sentiment
    cannot be formatted. *)
Lemma render_rows_raises (highlight_id : option Z)
    (before : list recent_row) (t : recent_row) (after : list recent_row)
    (e : exn) :
  Forall (fun t' => exists text,
            format_sentiment (sentiment_score t') = Ok text) before ->
  format_sentiment (sentiment_score t) = Raise e ->
  render_rows highlight_id (before ++ t :: after) = Raise e.
Proof.
  intros Hb Ht. induction Hb as [|t' before [text Ht'] _ IH]; simpl.
  - now rewrite (render_row_raises highlight_id t e Ht).
  - destruct (render_row_of_format highlight_id t' text Ht') as [row ->].
    now rewrite IH.
Qed.

Lemma render_rows_length (highlight_id : option Z) (tickets_in : list recent_row) :
  forall rows,
    render_rows highlight_id tickets_in = Ok rows ->
    List.length rows = List.length tickets_in.
Proof.
  induction tickets_in as [|t ts IH]; intros rows; cbn [render_rows].
  - intros [= <-]. reflexivity.
  - destruct (render_row highlight_id t) as [row|e]; [|discriminate].
    destruct (render_rows highlight_id ts) as [rows'|e]; [|discriminate].
    intros [= <-]. cbn [List.length]. now rewrite (IH rows' eq_refl).
Qed.

(** X10: when the call returns, on a store that satisfies the schema, the
    limit was not negative and fitted the parameter of the statement, and
    what the call printed is the panel of the empty state or one table
    between two blank lines: the panel exactly when it fetched no row,
    that is when there is no ticket or the limit is 0, and otherwise a
    table with [min(limit, number of tickets)] rows, whose title names
    that number. *)
Theorem display_recent_tickets_on_return
    (limit highlight_id : option Z) (d : db) (out : list printed) :
  consistent d ->
  display_recent_tickets limit highlight_id d = (out, Ok tt) ->
  0 <= or_default limit 5 < 2 ^ 63 /\
  if Z.min (or_default limit 5) (len (tickets d)) =? 0 then
    out = [Panel
             (lit "[yellow]No tickets found. Process your first ticket![/yellow]")
             (lit "Recent Tickets") (lit "yellow")]
  else
    exists rows,
      out = [Blank;
             Table (lit "[bold cyan]Recent Tickets (Last "
                      ++ str_of_int (len rows) ++ lit ")[/bold cyan]") rows;
             Blank] /\
      len rows = Z.min (or_default limit 5) (len (tickets d)).
Proof.
  intros Hd H. unfold display_recent_tickets in H. cbv zeta in H.
  destruct (fetch_recent_tickets (Some (or_default limit 5)) d)
    as [tickets0|e] eqn:Hf; [|discriminate H].
  pose proof (fetch_ok_inv _ _ _ Hf) as [Hb _].
  pose proof (fetched_length _ d tickets0 Hd Hf) as Hlen.
  change (or_default (Some (or_default limit 5)) 5)
    with (or_default limit 5) in Hb, Hlen.
  split; [exact Hb|].
  unfold display_rows in H. destruct tickets0 as [|t ts].
  - injection H as <-. change (len (@nil recent_row)) with 0 in Hlen.
    rewrite <- Hlen. reflexivity.
  - destruct (render_rows highlight_id (t :: ts)) as [rows|e] eqn:Hr;
      [|discriminate H].
    injection H as <-.
    assert (L : len rows = len (t :: ts))
      by (unfold len; now rewrite (render_rows_length _ _ _ Hr)).
    destruct (Z.min (or_default limit 5) (len (tickets d)) =? 0) eqn:E.
    { exfalso. apply Z.eqb_eq in E. rewrite <- Hlen in E.
      unfold len in E. cbn [List.length] in E. lia. }
    exists rows. rewrite L. split; [reflexivity | exact Hlen].
Qed.

(** X11: one score that cannot be formatted among the rows fetched
    suppresses the whole table: the call prints the error line for the
    exception of the first such row, and raises it again. *)
Theorem display_recent_tickets_bad_score
    (limit highlight_id : option Z) (d : db)
    (before : list recent_row) (t : recent_row) (after : list recent_row)
    (e : exn) :
  fetch_recent_tickets (Some (or_default limit 5)) d
    = Ok (before ++ t :: after) ->
  Forall (fun t' => exists text,
            format_sentiment (sentiment_score t') = Ok text) before ->
  format_sentiment (sentiment_score t) = Raise e ->
  display_recent_tickets limit highlight_id d = ([ErrorLine e], Raise e).
Proof.
  intros Hf Hb Ht. unfold display_recent_tickets. rewrite Hf.
  unfold display_rows.
  rewrite (render_rows_raises highlight_id before t after e Hb Ht).
  destruct (before ++ t :: after) eqn:E; [|reflexivity].
  destruct before; discriminate E.
Qed.

End TableFacts.

Lemma two_tickets_scores :
  forall t, In t (Store.tickets Fixtures.two_tickets) ->
            Display.in_unit_interval (Store.t_sentiment_score t).
Proof.
  intros t [<-|[<-|[]]]; vm_compute; repeat split; reflexivity.
Qed.

Lemma fetch_recent_tickets_prefix_witness :
  exists r1 r2,
    Store.join_customers Fixtures.two_tickets = [r1; r2] /\
    Display.fetch_recent_tickets (Some 1) Fixtures.two_tickets
    = Ok (firstn 1 [r2; r1]).
Proof.
  eexists _, _. split; [vm_compute; reflexivity|].
  destruct (fetch_recent_tickets_prefix 1 2 Fixtures.two_tickets
              (firstn 1 (Store.order_by_created_at_desc
                           (Store.join_customers Fixtures.two_tickets)))
              (firstn 2 (rev (Store.join_customers Fixtures.two_tickets))))
    as [E _].
  - exact two_tickets_consistent.
  - vm_compute. repeat constructor; simpl; intuition discriminate.
  - lia.
  - vm_compute. reflexivity.
  - exists (rev (Store.join_customers Fixtures.two_tickets)).
    split; [symmetry; apply Permutation_rev|]. split; [|reflexivity].
    repeat constructor; vm_compute; discriminate.
  - vm_compute in E |- *. reflexivity.
Defined.

Lemma fetch_recent_tickets_distinct_ids_witness :
  exists rows,
    Display.fetch_recent_tickets None Fixtures.two_tickets = Ok rows /\
    NoDup (List.map Store.id rows).
Proof.
  eexists. split; [vm_compute; reflexivity|].
  apply (fetch_recent_tickets_distinct_ids None Fixtures.two_tickets _
           two_tickets_consistent).
  vm_compute. reflexivity.
Defined.

Lemma display_recent_tickets_on_return_witness :
  exists rows,
    fst (Display.display_recent_tickets (U := ascii_unicode) None None
           Fixtures.two_tickets)
    = [Display.Blank;
       Display.Table (lit "[bold cyan]Recent Tickets (Last "
                        ++ Py.str_of_int (len rows) ++ lit ")[/bold cyan]") rows;
       Display.Blank] /\
    len rows = 2.
Proof.
  destruct (display_recent_tickets_on_return (U := ascii_unicode) None None
              Fixtures.two_tickets
              (fst (Display.display_recent_tickets (U := ascii_unicode)
                      None None Fixtures.two_tickets))
              two_tickets_consistent) as [_ H].
  - vm_compute. reflexivity.
  - change (Z.min (Display.or_default None 5)
              (len (Store.tickets Fixtures.two_tickets)) =? 0)
      with false in H.
    destruct H as (rows & E & L). exists rows. split; [exact E | exact L].
Defined.

Lemma display_recent_tickets_bad_score_witness :
  Display.display_recent_tickets (U := ascii_unicode) None (Some 3)
    Fixtures.with_nan_score
  = ([Display.ErrorLine ValueError], Raise ValueError).
Proof.
  eapply (display_recent_tickets_bad_score (U := ascii_unicode) None (Some 3)
            Fixtures.with_nan_score []).
  - vm_compute. reflexivity.
  - constructor.
  - reflexivity.
Defined.

(** ** [process_single_ticket], again *)

Section PersistFacts.
Context {U : Unicode}.
Import Store Main.

Variable agent : str -> outcome classification.

(** X12: a call returns only when the classifier returned a result whose
    category and priority are labels of the enumerations; the ticket it
    has then stored carries the id returned, the text, and the
    classification with these labels as values of the enumerations. *)
Theorem process_single_ticket_returns_classified
    (now : Z) (ticket_content : str) (d d' : db) (ticket_id : Z) :
  process_single_ticket agent now ticket_content d = (Ok ticket_id, d') ->
  exists output cat pri cid,
    agent (prompt ticket_content) = Ok output /\
    cast_category (category output) = Some cat /\
    cast_priority (priority output) = Some pri /\
    In {| t_id := ticket_id; t_customer_id := cid;
          t_raw_content := ticket_content;
          t_summary := Main.summary output;
          t_category := cat; t_priority := pri;
          t_sentiment_score := Main.sentiment_score output;
          t_created_at := now |} (tickets d').
Proof.
  unfold process_single_ticket.
  destruct (agent (prompt ticket_content)) as [output|e]; [|discriminate].
  unfold Store.bind, transaction, save, Store.bind.
  destruct (upsert_customer _ _ d) as [[cid|e] d1]; [|discriminate].
  unfold insert_ticket.
  destruct (cast_category (category output)) as [cat|] eqn:Ccat;
    [|discriminate].
  destruct (cast_priority (priority output)) as [pri|] eqn:Cpri;
    [|discriminate].
  destruct (existsb _ (customers d1)); [|discriminate].
  unfold ret. intros [= <- <-]. exists output, cat, pri, cid.
  split; [reflexivity|]. split; [exact Ccat|]. split; [exact Cpri|].
  cbn [tickets]. apply in_or_app. right. left. reflexivity.
Qed.

(** X13: the constraints of the schema are an invariant of the call,
    whether it returns or raises. *)
Theorem process_single_ticket_keeps_schema
    (now : Z) (ticket_content : str) (d : db) :
  consistent d ->
  consistent (snd (process_single_ticket agent now ticket_content d)).
Proof.
  intros Hd.
  destruct (process_single_ticket_cases agent now ticket_content d Hd)
    as (r & d' & -> & Hd' & _).
  exact Hd'.
Qed.

Lemma set_name_other (e n : str) (c : customers_row) :
  c_email c <> e -> set_name e n c = c.
Proof.
  intros H. unfold set_name. now rewrite (proj2 (has_email_false e c) H).
Qed.

(** X14: a call deletes nothing and touches one customer at most. The
    tickets of before are still there, in place, with one ticket after
    them at most; the customer ids of before are still there, in place;
    and every customer row with another e-mail is as it was. *)
Theorem process_single_ticket_frame (now : Z) (ticket_content : str) (d : db) :
  consistent d ->
  (exists added,
     tickets (snd (process_single_ticket agent now ticket_content d))
       = tickets d ++ added /\ (List.length added <= 1)%nat) /\
  (exists added,
     List.map c_id
       (customers (snd (process_single_ticket agent now ticket_content d)))
     = List.map c_id (customers d) ++ added /\ (List.length added <= 1)%nat) /\
  (forall c,
     In c (customers d) ->
     c_email c <> email (extract_customer_info ticket_content) ->
     In c (customers (snd (process_single_ticket agent now ticket_content d)))).
Proof.
  intros Hd.
  destruct (process_single_ticket_cases agent now ticket_content d Hd)
    as (r & d' & -> & _ & Hr).
  cbn [snd]. destruct r as [ticket_id|e].
  - destruct Hr as (cid & output & cat & pri & _ & _ & _ & _ & Ht & _ & Hfind).
    cbv zeta in Hfind. split; [|split].
    + eexists. split; [exact Ht | simpl; lia].
    + destruct (List.find _ (customers d)) as [c|].
      * destruct Hfind as [_ ->]. exists []. rewrite map_set_name_id, app_nil_r.
        split; [reflexivity | simpl; lia].
      * rewrite Hfind, map_app. eexists. split; [reflexivity | simpl; lia].
    + intros c Hc Hne. destruct (List.find _ (customers d)) as [c0|].
      * destruct Hfind as [_ ->]. apply in_map_iff. exists c.
        split; [now apply set_name_other | exact Hc].
      * rewrite Hfind. apply in_or_app. now left.
  - destruct Hr as [-> ->]. split; [|split].
    + exists []. rewrite app_nil_r. split; [reflexivity | simpl; lia].
    + exists []. rewrite app_nil_r. split; [reflexivity | simpl; lia].
    + auto.
Qed.

(** X15: a second ticket under the same e-mail and the same name changes
    no customer row. *)
Theorem process_single_ticket_same_customer
    (now1 now2 : Z) (ticket1 ticket2 : str) (d d1 d2 : db) (id1 id2 : Z) :
  consistent d ->
  process_single_ticket agent now1 ticket1 d = (Ok id1, d1) ->
  process_single_ticket agent now2 ticket2 d1 = (Ok id2, d2) ->
  email (extract_customer_info ticket1) = email (extract_customer_info ticket2) ->
  name (extract_customer_info ticket1) = name (extract_customer_info ticket2) ->
  customers d2 = customers d1.
Proof.
  intros Hd H1 H2 He Hn.
  destruct (process_single_ticket_cases agent now1 ticket1 d Hd)
    as (r1 & d1' & Hrun1 & Hd1 & Hr1).
  rewrite H1 in Hrun1. injection Hrun1 as <- <-.
  destruct Hr1 as (cid1 & _ & _ & _ & _ & _ & _ & _ & _ & Hf1 & _).
  destruct (process_single_ticket_cases agent now2 ticket2 d1 Hd1)
    as (r2 & d2' & Hrun2 & _ & Hr2).
  rewrite H2 in Hrun2. injection Hrun2 as <- <-.
  destruct Hr2 as (cid2 & _ & _ & _ & _ & _ & _ & _ & _ & _ & Hfind).
  cbv zeta in Hf1, Hfind. rewrite He, Hn in Hf1.
  rewrite find_is_filter_head, Hf1 in Hfind. cbn [hd_error] in Hfind.
  destruct Hfind as [_ ->].
  set (e := email (extract_customer_info ticket2)) in *.
  set (n := name (extract_customer_info ticket2)) in *.
  assert (F : forall c, In c (customers d1) -> set_name e n c = c).
  { intros c Hc. unfold set_name. destruct (has_email e c) eqn:E; [|reflexivity].
    assert (Hin : In c (filter (has_email e) (customers d1)))
      by (apply filter_In; now split).
    rewrite Hf1 in Hin. destruct Hin as [<-|[]]. reflexivity. }
  rewrite (map_ext_in _ (fun c => c) _ F). apply map_id.
Qed.

End PersistFacts.

(** ** From the transaction to the table *)

Section RoundTrip.
Context {U : Unicode}.
Import Store.

Variable agent : str -> outcome Main.classification.

Lemma cast_category_label (s : str) (c : category_enum) :
  cast_category s = Some c -> category_label c = s.
Proof.
  unfold cast_category. intros H. apply find_some in H as [_ H].
  now apply str_eqb_eq.
Qed.

Lemma cast_priority_label (s : str) (p : priority_enum) :
  cast_priority s = Some p -> priority_label p = s.
Proof.
  unfold cast_priority. intros H. apply find_some in H as [_ H].
  now apply str_eqb_eq.
Qed.

(** Under the primary key, the rows with the id of a row of the table are
    that row alone. *)
Lemma filter_id_is (l : list customers_row) (c : customers_row) :
  NoDup (List.map c_id l) -> In c l ->
  filter (fun c' => c_id c =? c_id c') l = [c].
Proof.
  intros ND Hin.
  pose proof (filter_id_unique (c_id c) l ND (in_map c_id l c Hin)) as L.
  assert (Hc : In c (filter (fun c' => c_id c =? c_id c') l))
    by (apply filter_In; split; [exact Hin | apply Z.eqb_refl]).
  destruct (filter (fun c' => c_id c =? c_id c') l) as [|x [|y r]];
    try discriminate L.
  destruct Hc as [->|[]]. reflexivity.
Qed.

(** A row that is newer than all the others comes first. *)
Lemma order_by_newest (l : list recent_row) (r : recent_row) :
  (forall x, In x l -> created_at x < created_at r) ->
  order_by_created_at_desc (l ++ [r]) = r :: order_by_created_at_desc l.
Proof.
  induction l as [|x l IH]; intros H; [reflexivity|].
  simpl. rewrite IH by (intros y Hy; apply H; now right).
  simpl. pose proof (H x (or_introl eq_refl)) as Hx.
  destruct (created_at r <=? created_at x) eqn:E; [lia | reflexivity].
Qed.

(** The rows of the join after a call that returned: the rows of the
    tickets of before, then the row of the new ticket with the customer
    as extracted. *)
Lemma join_after_process (now : Z) (ticket_content : str) (d d' : db)
    (ticket_id : Z) :
  consistent d ->
  Main.process_single_ticket agent now ticket_content d = (Ok ticket_id, d') ->
  exists output,
    agent (Main.prompt ticket_content) = Ok output /\
    join_customers d'
    = flat_map
        (fun t =>
           List.map (joined t)
             (filter (fun c => t_customer_id t =? c_id c) (customers d')))
        (tickets d)
      ++ [{| id := ticket_id;
             summary := Main.summary output;
             category := Main.category output;
             priority := Main.priority output;
             sentiment_score := Main.sentiment_score output;
             created_at := now;
             customer_name :=
               Main.name (Main.extract_customer_info ticket_content);
             customer_email :=
               Main.email (Main.extract_customer_info ticket_content) |}].
Proof.
  intros Hd Hrun.
  destruct (process_single_ticket_cases agent now ticket_content d Hd)
    as (r & d0 & Hrun' & Hd' & Hr).
  rewrite Hrun in Hrun'. injection Hrun' as <- <-.
  destruct Hr as (cid & output & cat & pri & HA & _ & Hcat & Hpri & Ht & Hf & _).
  cbv zeta in Hf. exists output. split; [exact HA|].
  unfold join_customers. rewrite Ht, flat_map_app. f_equal.
  cbn [flat_map t_customer_id]. rewrite app_nil_r.
  set (crow := {| c_id := cid;
                  c_email := Main.email (Main.extract_customer_info ticket_content);
                  c_name := Main.name (Main.extract_customer_info ticket_content) |})
    in *.
  assert (Hin : In crow (customers d')).
  { apply (proj1 (filter_In
                    (has_email
                       (Main.email (Main.extract_customer_info ticket_content)))
                    crow (customers d'))).
    rewrite Hf. now left. }
  pose proof (filter_id_is (customers d') crow (customers_pkey d' Hd') Hin) as E.
  cbn [c_id crow] in E. rewrite E. unfold joined. cbn.
  now rewrite (cast_category_label _ _ Hcat), (cast_priority_label _ _ Hpri).
Qed.

Lemma old_rows_created_at (cs : list customers_row) (ts : list tickets_row)
    (r : recent_row) :
  In r (flat_map
          (fun t =>
             List.map (joined t)
               (filter (fun c => t_customer_id t =? c_id c) cs)) ts) ->
  exists t, In t ts /\ created_at r = t_created_at t /\ id r = t_id t.
Proof.
  intros H. apply in_flat_map in H as (t & Ht & H).
  apply in_map_iff in H as (c & <- & _). now exists t.
Qed.

(** What the recency query answers right after a call that returned, when
    the new ticket is newer than every ticket of before and the limit is
    at least 1. *)
Lemma fetch_after_process (limit : option Z) (now : Z) (ticket_content : str)
    (d d' : db) (ticket_id : Z) (rows : list recent_row) :
  consistent d ->
  Main.process_single_ticket agent now ticket_content d = (Ok ticket_id, d') ->
  (forall t, In t (tickets d) -> t_created_at t < now) ->
  Display.fetch_recent_tickets limit d' = Ok rows ->
  1 <= Display.or_default limit 5 ->
  exists output rest,
    agent (Main.prompt ticket_content) = Ok output /\
    rows = {| id := ticket_id;
              summary := Main.summary output;
              category := Main.category output;
              priority := Main.priority output;
              sentiment_score := Main.sentiment_score output;
              created_at := now;
              customer_name :=
                Main.name (Main.extract_customer_info ticket_content);
              customer_email :=
                Main.email (Main.extract_customer_info ticket_content) |}
           :: rest.
Proof.
  intros Hd Hrun Hnew Hf Hlim.
  destruct (join_after_process now ticket_content d d' ticket_id Hd Hrun)
    as (output & HA & Hj).
  exists output. apply fetch_ok_inv in Hf as [_ ->]. rewrite Hj.
  rewrite order_by_newest.
  - destruct (Z.to_nat (Display.or_default limit 5)) as [|k] eqn:K; [lia|].
    eexists. split; [exact HA | reflexivity].
  - intros x Hx. apply old_rows_created_at in Hx as (t & Ht & -> & _).
    cbn [created_at]. now apply Hnew.
Qed.

(** X16: a ticket that was just persisted is the first row of what the
    recency query returns, when it is newer than the tickets of before
    and the limit is at least 1: its row carries the id returned, the
    customer as extracted from the text and the classification as the
    classifier gave it. *)
Theorem process_then_fetch (limit : option Z) (now : Z) (ticket_content : str)
    (d d' : db) (ticket_id : Z) (rows : list recent_row) :
  consistent d ->
  Main.process_single_ticket agent now ticket_content d = (Ok ticket_id, d') ->
  (forall t, In t (tickets d) -> t_created_at t < now) ->
  Display.fetch_recent_tickets limit d' = Ok rows ->
  1 <= Display.or_default limit 5 ->
  exists output rest,
    agent (Main.prompt ticket_content) = Ok output /\
    rows = {| id := ticket_id;
              summary := Main.summary output;
              category := Main.category output;
              priority := Main.priority output;
              sentiment_score := Main.sentiment_score output;
              created_at := now;
              customer_name :=
                Main.name (Main.extract_customer_info ticket_content);
              customer_email :=
                Main.email (Main.extract_customer_info ticket_content) |}
           :: rest.
Proof. apply fetch_after_process. Qed.

(** X17: after a call that returned, every row the recency query answers
    for the customer of the ticket, also for the tickets of before, shows
    the name extracted from this ticket. *)
Theorem process_renames_earlier_rows (limit : option Z) (now : Z)
    (ticket_content : str) (d d' : db) (ticket_id : Z)
    (rows : list recent_row) :
  consistent d ->
  Main.process_single_ticket agent now ticket_content d = (Ok ticket_id, d') ->
  Display.fetch_recent_tickets limit d' = Ok rows ->
  forall r,
    In r rows ->
    customer_email r = Main.email (Main.extract_customer_info ticket_content) ->
    customer_name r = Main.name (Main.extract_customer_info ticket_content).
Proof.
  intros Hd Hrun Hf r Hr He.
  destruct (process_single_ticket_cases agent now ticket_content d Hd)
    as (r0 & d0 & Hrun' & Hd' & Hr0).
  rewrite Hrun in Hrun'. injection Hrun' as <- <-.
  destruct Hr0 as (cid & _ & _ & _ & _ & _ & _ & _ & _ & Hfil & _).
  cbv zeta in Hfil.
  apply (fetched_rows_joined limit d' rows Hf) in Hr.
  apply join_customers_rows in Hr as (t & c & _ & Hc & _ & ->).
  cbn [customer_email customer_name joined] in *.
  assert (Hin : In c (filter
                        (has_email
                           (Main.email (Main.extract_customer_info ticket_content)))
                        (customers d')))
    by (apply filter_In; split; [exact Hc | now apply has_email_true]).
  rewrite Hfil in Hin. destruct Hin as [<-|[]]. reflexivity.
Qed.

End RoundTrip.

(** ** The batch loop and [main] *)

Section BatchFacts.
Context {U : Unicode}.
Import Store.

Variable agent : str -> outcome Main.classification.
Variable clock : nat -> Z.

Lemma rev_cons_head {A} (x : A) (l : list A) (y : A) (r : list A) :
  rev l = y :: r -> exists r', rev (x :: l) = y :: r'.
Proof. intros H. simpl. rewrite H. now exists (r ++ [x]). Qed.

(** X18: the batch loop is not atomic as a whole. It persists the tickets
    in order, each in its own transaction, and stops at the first that
    fails: the store then holds the tickets before it and none after it.
    When no ticket fails, all are persisted and the id handed to the
    display is the id of the last one. *)
Theorem process_all_persists_prefix
    (tickets_in : list str) (i : nat) (last : option Z) (d : db) :
  consistent d ->
  exists r d' added,
    App.process_all clock agent tickets_in i last d = (r, d') /\
    consistent d' /\
    tickets d' = tickets d ++ added /\
    List.map t_raw_content added = firstn (List.length added) tickets_in /\
    match r with
    | Ok last' =>
        List.length added = List.length tickets_in /\
        last' = match rev added with
                | t :: _ => Some (t_id t)
                | [] => last
                end
    | Raise _ => (List.length added < List.length tickets_in)%nat
    end.
Proof.
  revert i last d.
  induction tickets_in as [|ticket rest IH]; intros i last d Hd.
  - exists (Ok last), d, []. split; [reflexivity|]. split; [exact Hd|].
    split; [now rewrite app_nil_r|]. split; [reflexivity|]. split; reflexivity.
  - simpl. unfold bind.
    destruct (process_single_ticket_cases agent (clock i) ticket d Hd)
      as (r1 & d1 & -> & Hd1 & Hr1).
    destruct r1 as [tid|e].
    + destruct Hr1 as (cid & output & cat & pri & _ & _ & _ & _ & Ht & _ & _).
      destruct (IH (S i) (Some tid) d1 Hd1)
        as (r & d' & added & -> & Hd' & Ht' & Hraw & Hr).
      eexists r, d', (_ :: added). split; [reflexivity|].
      split; [exact Hd'|]. split; [rewrite Ht', Ht, <- app_assoc; reflexivity|].
      split.
      * cbn [List.map t_raw_content List.length firstn]. now rewrite Hraw.
      * destruct r as [last'|e'].
        -- destruct Hr as [Hlen ->]. split; [simpl; now rewrite Hlen|].
           destruct (rev added) as [|y r'] eqn:E.
           ++ apply (f_equal (@rev _)) in E. rewrite rev_involutive in E.
              subst added. reflexivity.
           ++ destruct (rev_cons_head
                          {| t_id := tid; t_customer_id := cid;
                             t_raw_content := ticket;
                             t_summary := Main.summary output;
                             t_category := cat; t_priority := pri;
                             t_sentiment_score := Main.sentiment_score output;
                             t_created_at := clock i |} added y r' E)
                as (r'' & ->). reflexivity.
        -- simpl. lia.
    + destruct Hr1 as [Hc Ht]. exists (Raise e), d1, [].
      split; [reflexivity|]. split; [exact Hd1|].
      split; [now rewrite Ht, app_nil_r|].
      split; [reflexivity | simpl; lia].
Qed.

End BatchFacts.

Section RowFacts.
Context {U : Unicode}.
Import Store Display.

Lemma render_rows_inv (highlight_id : option Z) (tickets_in : list recent_row) :
  forall rows,
    render_rows highlight_id tickets_in = Ok rows ->
    Forall2 (fun t row => render_row highlight_id t = Ok row) tickets_in rows.
Proof.
  induction tickets_in as [|t ts IH]; intros rows; simpl.
  - intros [= <-]. constructor.
  - destruct (render_row highlight_id t) as [row|e] eqn:E; [|discriminate].
    destruct (render_rows highlight_id ts) as [rows'|e]; [|discriminate].
    intros [= <-]. constructor; [exact E | now apply IH].
Qed.

Lemma render_row_cells (highlight_id : option Z) (t : recent_row)
    (row : table_row) :
  render_row highlight_id t = Ok row ->
  cell_id row = str_of_int (id t) /\
  cell_customer row = truncate_text (customer_name t) 15 /\
  cell_summary row = truncate_text (summary t) 45 /\
  row_style row = (if is_new highlight_id t then highlight else None).
Proof.
  unfold render_row.
  destruct (format_sentiment (sentiment_score t)); [|discriminate].
  intros [= <-]. repeat split; reflexivity.
Qed.

Lemma truncate_text_bounded (text : str) (max_length : Z) :
  3 <= max_length -> len (truncate_text text max_length) <= max_length.
Proof.
  intros H3. destruct (Z_le_gt_dec (len text) max_length) as [Hle|Hgt].
  - unfold truncate_text. pose proof Hle as Hb. apply Z.leb_le in Hb.
    now rewrite Hb.
  - rewrite (truncate_text_long_len text max_length H3); lia.
Qed.

(** What is printed is a table only when all rows were rendered. *)
Lemma display_table_inv (limit highlight_id : option Z) (d : db)
    (title : str) (rows : list table_row) (r : outcome unit) :
  display_recent_tickets limit highlight_id d
    = ([Blank; Table title rows; Blank], r) ->
  exists tickets_in,
    fetch_recent_tickets (Some (or_default limit 5)) d = Ok tickets_in /\
    render_rows highlight_id tickets_in = Ok rows.
Proof.
  unfold display_recent_tickets.
  destruct (fetch_recent_tickets (Some (or_default limit 5)) d)
    as [tickets_in|e]; [|discriminate].
  unfold display_rows. destruct tickets_in as [|t ts]; [discriminate|].
  destruct (render_rows highlight_id (t :: ts)) as [rows'|e] eqn:E;
    [|discriminate].
  intros [= <- <-]. now exists (t :: ts).
Qed.

(** X19: in every table that is printed, a row shows the id of its
    ticket as a decimal numeral, a customer cell of 15 characters at most
    and a summary cell of 45 characters at most, and the rows are as many
    as the tickets fetched. *)
Theorem display_table_cells (limit highlight_id : option Z) (d : db)
    (title : str) (rows : list table_row) (r : outcome unit) :
  display_recent_tickets limit highlight_id d
    = ([Blank; Table title rows; Blank], r) ->
  exists tickets_in,
    fetch_recent_tickets (Some (or_default limit 5)) d = Ok tickets_in /\
    Forall2 (fun t row =>
               cell_id row = str_of_int (id t) /\
               cell_customer row = truncate_text (customer_name t) 15 /\
               cell_summary row = truncate_text (summary t) 45 /\
               len (cell_customer row) <= 15 /\
               len (cell_summary row) <= 45)
            tickets_in rows.
Proof.
  intros H. destruct (display_table_inv _ _ _ _ _ _ H) as (ts & Hf & Hr).
  exists ts. split; [exact Hf|].
  eapply Forall2_impl; [|apply (render_rows_inv _ _ _ Hr)].
  intros t row Hrow. cbv beta in Hrow.
  destruct (render_row_cells _ _ _ Hrow) as (Hi & Hc & Hs & _).
  rewrite Hi, Hc, Hs. repeat split; apply truncate_text_bounded; lia.
Qed.

End RowFacts.

Lemma display_table_cells_witness :
  exists title rows tickets_in,
    Display.display_recent_tickets (U := ascii_unicode) None None
      Fixtures.two_tickets
    = ([Display.Blank; Display.Table title rows; Display.Blank], Ok tt) /\
    Display.fetch_recent_tickets (Some 5) Fixtures.two_tickets = Ok tickets_in /\
    Forall2 (fun t row =>
               Display.cell_id row = str_of_int (Store.id t) /\
               Display.cell_customer row
                 = Display.truncate_text (Store.customer_name t) 15 /\
               Display.cell_summary row
                 = Display.truncate_text (Store.summary t) 45 /\
               len (Display.cell_customer row) <= 15 /\
               len (Display.cell_summary row) <= 45)
            tickets_in rows.
Proof.
  eexists _, _.
  refine (match display_table_cells (U := ascii_unicode) None None
                  Fixtures.two_tickets _ _ (Ok tt) _ with
          | ex_intro _ ts (conj Hf HF) => ex_intro _ ts (conj _ (conj Hf HF))
          end); vm_compute; reflexivity.
Defined.

Section MainFacts.
Context {U : Unicode}.
Import Store Display.

Variable draw : nat.
Variable from_env : outcome unit.
Variable create_pool : outcome unit.
Variable init_database : db -> outcome db.
Variable create_ticket_agent : outcome (str -> outcome Main.classification).
Variable clock : nat -> Z.

Lemma fetched_ids_nodup (limit : option Z) (d : db) (rows : list recent_row) :
  consistent d ->
  fetch_recent_tickets limit d = Ok rows ->
  NoDup (List.map id rows).
Proof.
  intros Hd Hf. apply fetch_ok_inv in Hf as [_ ->]. rewrite <- firstn_map.
  apply NoDup_firstn.
  apply (Permutation_NoDup
           (Permutation_map id (Permutation_sym (order_by_perm _)))).
  rewrite (join_customers_ids d Hd). apply (tickets_pkey d Hd).
Qed.

(** What a call that returned has printed, on the rows fetched. *)
Lemma display_returned (limit highlight_id : option Z) (d : db)
    (out : list printed) :
  display_recent_tickets limit highlight_id d = (out, Ok tt) ->
  exists tickets_in,
    fetch_recent_tickets (Some (or_default limit 5)) d = Ok tickets_in /\
    display_rows highlight_id tickets_in = Ok out.
Proof.
  unfold display_recent_tickets. cbv zeta.
  destruct (fetch_recent_tickets (Some (or_default limit 5)) d)
    as [tickets_in|e]; [|discriminate].
  destruct (display_rows highlight_id tickets_in) as [out'|e] eqn:E;
    [|discriminate].
  intros [= <-]. now exists tickets_in.
Qed.

(** Processing one ticket and showing the table: what was printed when
    both calls returned. *)
Lemma display_after_process
    (agent : str -> outcome Main.classification) (now : Z)
    (ticket_input : str) (d d' : db) (ticket_id : Z) (out : list printed) :
  consistent d ->
  0 < tickets_id_seq d ->
  (forall t, In t (tickets d) -> t_created_at t < now) ->
  Main.process_single_ticket agent now ticket_input d = (Ok ticket_id, d') ->
  display_recent_tickets (Some 5) (Some ticket_id) d' = (out, Ok tt) ->
  exists title row rows t,
    out = [Blank; Table title (row :: rows); Blank] /\
    consistent d' /\
    tickets d' = tickets d ++ [t] /\
    t_id t = ticket_id /\
    t_raw_content t = ticket_input /\
    t_created_at t = now /\
    cell_id row = str_of_int ticket_id /\
    cell_customer row
      = truncate_text (Main.name (Main.extract_customer_info ticket_input)) 15 /\
    row_style row = highlight /\
    Forall (fun r => row_style r = None) rows.
Proof.
  intros Hd Hseq Hold Hrun Hdisp.
  destruct (process_single_ticket_cases agent now ticket_input d Hd)
    as (r0 & d0 & Hrun' & Hd' & Hr0).
  rewrite Hrun in Hrun'. injection Hrun' as <- <-.
  destruct Hr0 as (cid & output & cat & pri & HA & Htid & _ & _ & Ht & _).
  destruct (display_returned _ _ _ _ Hdisp) as (tickets_in & Hf & Hrows).
  change (or_default (Some 5) 5) with 5 in Hf.
  destruct (fetch_after_process agent (Some 5) now ticket_input d d' ticket_id
              tickets_in Hd Hrun Hold Hf ltac:(simpl; lia))
    as (output' & rest & _ & ->).
  set (newrow := {| id := ticket_id |}) in *.
  unfold display_rows in Hrows.
  destruct (render_rows (Some ticket_id) (newrow :: rest)) as [rows0|e] eqn:Hr;
    [|discriminate Hrows].
  injection Hrows as <-.
  pose proof (render_rows_inv (Some ticket_id) (newrow :: rest) rows0 Hr)
    as Hcells.
  inversion Hcells as [|? row ? rows Hrow Hrest]; subst.
  destruct (render_row_cells _ _ _ Hrow) as (Hi & Hc & _ & Hstyle).
  match type of Ht with
  | _ = _ ++ [?t0] => eexists _, row, rows, t0
  end.
  split; [reflexivity|]. split; [exact Hd'|]. split; [exact Ht|].
  cbn [t_id t_raw_content t_created_at].
  split; [reflexivity|]. split; [reflexivity|]. split; [reflexivity|].
  split; [exact Hi|]. split; [exact Hc|]. split.
  - rewrite Hstyle. unfold is_new. cbn [id newrow].
    rewrite Z.eqb_refl. destruct (Z.eqb_spec (tickets_id_seq d) 0); [lia|].
    reflexivity.
  - pose proof (fetched_ids_nodup (Some 5) d' _ Hd' Hf) as ND.
    cbn [List.map id newrow] in ND. inversion ND as [|? ? Hnot _]; subst.
    clear -Hrest Hnot.
    induction Hrest as [|t row ts rows Hs _ IH]; constructor.
    + destruct (render_row_cells _ _ _ Hs) as (_ & _ & _ & ->).
      unfold is_new.
      destruct (Z.eqb_spec (id t) (tickets_id_seq d)) as [E|E].
      * exfalso. apply Hnot. left. exact E.
      * now rewrite andb_false_r.
    + apply IH. intros Hin. apply Hnot. now right.
Qed.

(** X20: a run of [main] on one ticket that returns, on a database that
    [init_database] leaves in line with the schema, with positive ticket
    ids and timestamps earlier than that of the run: [main] has closed the
    pool, has appended one ticket with the text as its raw content, and
    has printed one table whose first row is that ticket, highlighted, no
    other row being highlighted. *)
Theorem main_single_ticket (argv stdin : list str) (d d1 : db) :
  init_database d = Ok d1 ->
  consistent d1 ->
  0 < tickets_id_seq d1 ->
  (forall t, In t (tickets d1) -> t_created_at t < clock 0) ->
  fst (Main.get_ticket_input draw argv stdin) <> lit "ALL_SAMPLES" ->
  App.result (App.main draw from_env create_pool init_database
                create_ticket_agent clock argv stdin d) = Ok tt ->
  exists title row rows d' t,
    App.main draw from_env create_pool init_database create_ticket_agent clock
      argv stdin d
    = {| App.console := [Blank; Table title (row :: rows); Blank];
         App.result := Ok tt;
         App.database := d';
         App.pool := App.PoolClosed |} /\
    tickets d' = tickets d1 ++ [t] /\
    t_raw_content t = fst (Main.get_ticket_input draw argv stdin) /\
    cell_id row = str_of_int (t_id t) /\
    row_style row = highlight /\
    Forall (fun r => row_style r = None) rows.
Proof.
  intros Hi Hd Hseq Hold Hne. unfold App.main.
  destruct (Main.get_ticket_input draw argv stdin) as [ticket_input stdin'].
  cbn [fst] in Hne.
  destruct from_env as [u|e]; [|discriminate].
  destruct create_pool as [u'|e]; [|discriminate].
  rewrite Hi.
  destruct create_ticket_agent as [agent|e]; [|discriminate].
  unfold App.process_and_display.
  rewrite (proj2 (str_eqb_neq _ _) Hne).
  destruct (Main.process_single_ticket agent (clock 0) ticket_input d1)
    as [[tid|e] d'] eqn:Hrun; [|discriminate].
  destruct (display_recent_tickets (Some 5) (Some tid) d') as [out r]
    eqn:Hdisp.
  cbn [App.result]. intros ->.
  destruct (display_after_process agent (clock 0) ticket_input d1 d' tid out
              Hd Hseq Hold Hrun Hdisp)
    as (title & row & rows & t & -> & _ & Ht & Htid & Hraw & _ & Hid & _
        & Hstyle & Hrest).
  exists title, row, rows, d', t.
  split; [reflexivity|]. split; [exact Ht|]. split; [exact Hraw|].
  split; [now rewrite Htid|]. split; [exact Hstyle | exact Hrest].
Qed.

(** X21: [main] does not leak the pool. Whatever step fails or succeeds,
    the pool is closed if [create_pool] had returned it, and there is no
    pool otherwise. *)
Theorem main_closes_pool (argv stdin : list str) (d : db) :
  App.pool (App.main draw from_env create_pool init_database
              create_ticket_agent clock argv stdin d)
  = match from_env, create_pool with
    | Ok _, Ok _ => App.PoolClosed
    | _, _ => App.NoPool
    end.
Proof.
  unfold App.main.
  destruct (Main.get_ticket_input draw argv stdin) as [ticket_input stdin'].
  destruct from_env; [|reflexivity].
  destruct create_pool; [|reflexivity].
  destruct (init_database d) as [d1|e]; [|reflexivity].
  destruct create_ticket_agent as [agent|e]; [|reflexivity].
  destruct (App.process_and_display clock agent ticket_input d1) as [[out r] d2].
  reflexivity.
Qed.

End MainFacts.

(** ** The properties above, on a store with two tickets *)

Lemma process_single_ticket_returns_classified_witness :
  exists output,
    Fixtures.billing_agent (Main.prompt (lit "Email: bob@example.com"))
      = Ok output /\
    Store.cast_category (Main.category output) = Some Store.billing /\
    Store.cast_priority (Main.priority output) = Some Store.critical.
Proof.
  destruct (process_single_ticket_returns_classified (U := ascii_unicode)
              Fixtures.billing_agent 30 (lit "Email: bob@example.com")
              Fixtures.two_tickets
              (snd (Main.process_single_ticket (U := ascii_unicode)
                      Fixtures.billing_agent 30 (lit "Email: bob@example.com")
                      Fixtures.two_tickets)) 3)
    as (output & cat & pri & cid & HA & Hcat & Hpri & _).
  - vm_compute. reflexivity.
  - exists output. split; [exact HA|].
    injection HA as <-. split; vm_compute; reflexivity.
Defined.

Lemma process_single_ticket_keeps_schema_witness :
  Store.consistent
    (snd (Main.process_single_ticket (U := ascii_unicode) Fixtures.billing_agent
            30 (lit "Email: bob@example.com") Fixtures.two_tickets)).
Proof.
  apply (process_single_ticket_keeps_schema (U := ascii_unicode)).
  exact two_tickets_consistent.
Defined.

Lemma process_single_ticket_frame_witness :
  In {| Store.c_id := 1; Store.c_email := lit "ann@example.com";
        Store.c_name := lit "Ann" |}
     (Store.customers
        (snd (Main.process_single_ticket (U := ascii_unicode)
                Fixtures.billing_agent 30 (lit "Email: bob@example.com")
                Fixtures.two_tickets))).
Proof.
  apply (process_single_ticket_frame (U := ascii_unicode)
           Fixtures.billing_agent 30 (lit "Email: bob@example.com")
           Fixtures.two_tickets two_tickets_consistent).
  - left. reflexivity.
  - vm_compute. discriminate.
Defined.

Lemma process_single_ticket_same_customer_witness :
  exists d1 d2,
    Main.process_single_ticket (U := ascii_unicode) Fixtures.billing_agent 30
      (lit "Email: bob@example.com" ++ [10%N] ++ lit "Name: Bob")
      Fixtures.two_tickets = (Ok 3, d1) /\
    Main.process_single_ticket (U := ascii_unicode) Fixtures.billing_agent 31
      (lit "Name: Bob" ++ [10%N] ++ lit "Again, from bob@example.com")
      d1 = (Ok 4, d2) /\
    Store.customers d2 = Store.customers d1.
Proof.
  eexists _, _. split; [vm_compute; reflexivity|].
  split; [vm_compute; reflexivity|].
  apply (process_single_ticket_same_customer (U := ascii_unicode)
           Fixtures.billing_agent 30 31
           (lit "Email: bob@example.com" ++ [10%N] ++ lit "Name: Bob")
           (lit "Name: Bob" ++ [10%N] ++ lit "Again, from bob@example.com")
           Fixtures.two_tickets _ _ 3 4 two_tickets_consistent);
    vm_compute; reflexivity.
Defined.

Lemma process_then_fetch_witness :
  exists d' rest,
    Main.process_single_ticket (U := ascii_unicode) Fixtures.billing_agent 30
      (lit "Email: bob@example.com" ++ [10%N] ++ lit "Name: Bob")
      Fixtures.two_tickets = (Ok 3, d') /\
    Display.fetch_recent_tickets None d'
    = Ok ({| Store.id := 3;
             Store.summary := lit "Duplicate billing charge";
             Store.category := lit "billing";
             Store.priority := lit "critical";
             Store.sentiment_score := Display.float_of_ratio 15 100;
             Store.created_at := 30;
             Store.customer_name := lit "Bob";
             Store.customer_email := lit "bob@example.com" |} :: rest).
Proof.
  destruct (process_then_fetch (U := ascii_unicode) Fixtures.billing_agent None 30
              (lit "Email: bob@example.com" ++ [10%N] ++ lit "Name: Bob")
              Fixtures.two_tickets _ 3
              (firstn 5 (Store.order_by_created_at_desc
                           (Store.join_customers
                              (snd (Main.process_single_ticket
                                      (U := ascii_unicode)
                                      Fixtures.billing_agent 30
                                      (lit "Email: bob@example.com" ++ [10%N]
                                         ++ lit "Name: Bob")
                                      Fixtures.two_tickets)))))
              two_tickets_consistent
              ltac:(vm_compute; reflexivity))
    as (output & rest & HA & Hf).
  - intros t [<-|[<-|[]]]; simpl; lia.
  - vm_compute. reflexivity.
  - simpl. lia.
  - eexists _, rest. split; [vm_compute; reflexivity|].
    injection HA as <-. vm_compute in Hf. vm_compute. f_equal. exact Hf.
Defined.

Lemma process_renames_earlier_rows_witness :
  exists d' rows,
    Main.process_single_ticket (U := ascii_unicode) Fixtures.billing_agent 30
      (lit "Email: ann@example.com" ++ [10%N] ++ lit "Name: Anna B.")
      Fixtures.two_tickets = (Ok 3, d') /\
    Display.fetch_recent_tickets None d' = Ok rows /\
    List.map Store.customer_name rows
    = [lit "Anna B."; lit "Anna B."; lit "Anna B."].
Proof.
  eexists _, _. split; [vm_compute; reflexivity|].
  split; [vm_compute; reflexivity|].
  pose proof (process_renames_earlier_rows (U := ascii_unicode)
                Fixtures.billing_agent None 30
                (lit "Email: ann@example.com" ++ [10%N] ++ lit "Name: Anna B.")
                Fixtures.two_tickets _ 3 _ two_tickets_consistent
                ltac:(vm_compute; reflexivity) ltac:(vm_compute; reflexivity))
    as H.
  cbn [List.map].
  rewrite (H _ (or_introl eq_refl)) by (vm_compute; reflexivity).
  rewrite (H _ (or_intror (or_introl eq_refl))) by (vm_compute; reflexivity).
  rewrite (H _ (or_intror (or_intror (or_introl eq_refl))))
    by (vm_compute; reflexivity).
  vm_compute. reflexivity.
Defined.

Lemma process_all_persists_prefix_witness :
  exists r d' added,
    App.process_all (U := ascii_unicode) (fun i => 100 + Z.of_nat i)
      Fixtures.billing_agent Main.SAMPLE_TICKETS 0 None Fixtures.two_tickets
    = (r, d') /\
    Store.tickets d' = Store.tickets Fixtures.two_tickets ++ added /\
    r = Ok (Some 7) /\ List.length added = 5%nat.
Proof.
  destruct (process_all_persists_prefix (U := ascii_unicode)
              Fixtures.billing_agent (fun i => 100 + Z.of_nat i)
              Main.SAMPLE_TICKETS 0 None Fixtures.two_tickets
              two_tickets_consistent)
    as (r & d' & added & Hrun & _ & Ht & _ & _).
  exists r, d', added. split; [exact Hrun|]. split; [exact Ht|].
  vm_compute in Hrun. injection Hrun as <- <-.
  vm_compute in Ht. injection Ht as <-.
  split; reflexivity.
Defined.

Lemma main_single_ticket_witness :
  exists title row rows d',
    App.main (U := ascii_unicode) 0 (Ok tt) (Ok tt) (fun d => Ok d)
      (Ok Fixtures.billing_agent) (fun i => 100 + Z.of_nat i)
      [lit "main.py"; lit "I"; lit "was"; lit "charged"; lit "twice"] []
      Fixtures.two_tickets
    = {| App.console :=
           [Display.Blank; Display.Table title (row :: rows); Display.Blank];
         App.result := Ok tt;
         App.database := d';
         App.pool := App.PoolClosed |} /\
    Display.cell_id row = lit "3" /\
    Display.row_style row = Display.highlight /\
    Forall (fun r => Display.row_style r = None) rows.
Proof.
  destruct (main_single_ticket (U := ascii_unicode) 0 (Ok tt) (Ok tt)
              (fun d => Ok d) (Ok Fixtures.billing_agent)
              (fun i => 100 + Z.of_nat i)
              [lit "main.py"; lit "I"; lit "was"; lit "charged"; lit "twice"] []
              Fixtures.two_tickets Fixtures.two_tickets)
    as (title & row & rows & d' & t & Hm & Ht & _ & Hid & Hs & Hr).
  - reflexivity.
  - exact two_tickets_consistent.
  - reflexivity.
  - intros t [<-|[<-|[]]]; simpl; lia.
  - vm_compute. discriminate.
  - vm_compute. reflexivity.
  - exists title, row, rows, d'. split; [exact Hm|]. split; [|split; assumption].
    rewrite Hid. vm_compute in Hm. injection Hm as _ _ _ Hd'.
    rewrite <- Hd' in Ht. vm_compute in Ht.
    injection Ht as <-. reflexivity.
Defined.

(** ** [extract_customer_info], again *)

Section NameFacts.
Context {U : Unicode}.
Import Main Shape Terms.

Lemma lstrip_first (s : str) : is_space_opt (first_char (lstrip s)) = false.
Proof.
  induction s as [|c s IH]; [reflexivity|]. simpl.
  destruct (isspace c) eqn:E; [exact IH|]. simpl. exact E.
Qed.

Lemma lstrip_prefix (s : str) :
  exists pre, s = pre ++ lstrip s /\ forallb isspace pre = true.
Proof.
  induction s as [|c s (pre & Hs & Hp)]; [now exists []|]. simpl.
  destruct (isspace c) eqn:E.
  - exists (c :: pre). simpl. rewrite E, Hp. split; [now rewrite <- Hs|reflexivity].
  - now exists [].
Qed.

Lemma lstrip_snoc (s : str) (c : char) :
  isspace c = false -> lstrip (s ++ [c]) = lstrip s ++ [c].
Proof.
  intros Hc. induction s as [|a s IH]; simpl.
  - now rewrite Hc.
  - destruct (isspace a); [exact IH | reflexivity].
Qed.

Lemma forallb_rev {A} (p : A -> bool) (l : list A) :
  forallb p l = true -> forallb p (rev l) = true.
Proof.
  rewrite !forallb_forall. intros H x Hx. apply H. now apply in_rev.
Qed.

Lemma rstrip_suffix (s : str) :
  exists post, s = rstrip s ++ post /\ forallb isspace post = true.
Proof.
  unfold rstrip. destruct (lstrip_prefix (rev s)) as (pre & Hs & Hp).
  exists (rev pre). split; [|now apply forallb_rev].
  rewrite <- rev_app_distr, <- Hs. now rewrite rev_involutive.
Qed.

Lemma rstrip_final (s : str) : is_space_opt (final_char (rstrip s)) = false.
Proof.
  unfold final_char, rstrip. rewrite rev_involutive. apply lstrip_first.
Qed.

Lemma rstrip_cons (c : char) (s : str) :
  isspace c = false -> rstrip (c :: s) = c :: rstrip s.
Proof.
  intros Hc. unfold rstrip. simpl. rewrite (lstrip_snoc _ _ Hc).
  rewrite rev_app_distr. reflexivity.
Qed.

(** [s.strip()] is what is left of [s] between its leading and its
    trailing whitespace. *)
Lemma strip_spec (s : str) :
  (exists pre post,
     s = pre ++ strip s ++ post /\
     forallb isspace pre = true /\ forallb isspace post = true) /\
  is_space_opt (first_char (strip s)) = false /\
  is_space_opt (final_char (strip s)) = false /\
  (forallb isspace s = false -> strip s <> []).
Proof.
  unfold strip. split; [|split; [|split]].
  - destruct (lstrip_prefix s) as (pre & Hs & Hp).
    destruct (rstrip_suffix (lstrip s)) as (post & Hl & Hq).
    exists pre, post. split; [|split; assumption].
    now rewrite <- Hl.
  - pose proof (lstrip_first s) as H.
    destruct (lstrip s) as [|c t]; [reflexivity|]. simpl in H.
    rewrite (rstrip_cons c t H). exact H.
  - apply rstrip_final.
  - intros Hb. pose proof (lstrip_first s) as H.
    destruct (lstrip_prefix s) as (pre & Hs & Hp).
    destruct (lstrip s) as [|c t].
    + rewrite app_nil_r in Hs. subst pre. congruence.
    + simpl in H. rewrite (rstrip_cons c t H). discriminate.
Qed.

Lemma slice_from_app (pre marker rest : str) :
  slice_from (pre ++ marker ++ rest) (len pre + len marker) = rest.
Proof.
  unfold slice_from, clamp, len.
  rewrite (proj2 (Z.ltb_ge _ 0))
    by (apply Z.add_nonneg_nonneg; apply Nat2Z.is_nonneg).
  rewrite <- Nat2Z.inj_add, Nat2Z.id, app_assoc, <- length_app.
  rewrite skipn_app, skipn_all, Nat.sub_diag. reflexivity.
Qed.

(** X22: let the first line whose lower-cased form holds ["name:"] read
    [pre ++ marker ++ rest], where [marker] is the five characters that
    start at the index at which ["name:"] is found in the lower-cased
    line; they are the marker as written whenever lower-casing keeps the
    length of what stands before it. When [rest] holds a character that
    is no whitespace, the name is [rest] without its leading and trailing
    whitespace: it is not empty, it neither starts nor ends with
    whitespace, and only whitespace surrounds it in [rest]. *)
Theorem extract_name_is_stripped_text
    (ticket_content : str) (before : list str) (line : str) (after : list str)
    (pre marker rest : str) :
  split 10%N ticket_content = before ++ line :: after ->
  (forall l, In l before -> mentions_name l = false) ->
  line = pre ++ marker ++ rest ->
  len marker = 5 ->
  find (lower line) (lit "name:") = len pre ->
  forallb isspace rest = false ->
  let n := name (extract_customer_info ticket_content) in
  n = strip rest /\
  n <> [] /\
  is_space_opt (first_char n) = false /\
  is_space_opt (final_char n) = false /\
  exists leading trailing,
    rest = leading ++ n ++ trailing /\
    forallb isspace leading = true /\ forallb isspace trailing = true.
Proof.
  intros Hs Hb Hline Hm Hfind Hw n.
  assert (Hl : mentions_name line = true).
  { unfold mentions_name.
    pose proof (find_from_contains (lit "name:") (lower line) 0 ltac:(lia)) as F.
    destruct (contains (lit "name:") (lower line)); [reflexivity|].
    unfold find in Hfind. rewrite Hfind in F. unfold len in F. lia. }
  assert (Ha : after_marker line = rest).
  { unfold after_marker. rewrite Hfind, <- Hm. rewrite Hline at 1.
    apply slice_from_app. }
  destruct (strip_spec rest) as (Hmid & Hf & Hl' & Hne).
  specialize (Hne Hw).
  assert (E : n = strip rest).
  { unfold n, extract_customer_info. cbn [name].
    rewrite Hs, (scan_name_first before line after Hb Hl), Ha.
    apply or_else_some, Hne. }
  rewrite E. repeat split; assumption.
Qed.

Lemma count_occ_none (p : char -> bool) (x : char) (l : str) :
  forallb p l = true -> p x = false -> count_occ N.eq_dec l x = 0%nat.
Proof.
  intros Hl Hx. induction l as [|c l IH]; [reflexivity|].
  simpl in Hl. apply andb_prop in Hl as [Hc Hl]. simpl.
  destruct (N.eq_dec c x) as [->|_]; [congruence | now apply IH].
Qed.

Lemma email_shape_one_at (m : str) :
  email_shape m -> count_occ N.eq_dec m 64%N = 1%nat.
Proof.
  intros (l & d & t & -> & _ & Hl & _ & Hd & _ & Ht).
  rewrite !count_occ_app.
  rewrite (count_occ_none local_char 64%N l Hl eq_refl).
  rewrite (count_occ_none domain_char 64%N d Hd eq_refl).
  rewrite (count_occ_none tld_char 64%N t Ht eq_refl).
  reflexivity.
Qed.

(** X23: whatever the ticket, the e-mail address extracted holds exactly
    one [@]: no class of the pattern admits the character, and the
    fallback has one. *)
Theorem extract_email_one_at (ticket_content : str) :
  count_occ N.eq_dec (email (extract_customer_info ticket_content)) 64%N
  = 1%nat.
Proof.
  unfold extract_customer_info. cbn [email].
  destruct (findall_email_cases ticket_content)
    as [[-> _] | (pre & m & post & ms & -> & Hocc & _)].
  - reflexivity.
  - destruct Hocc as (_ & Hm & _).
    rewrite (or_else_some _ _ (email_shape_nonempty m Hm)).
    now apply email_shape_one_at.
Qed.

End NameFacts.

Lemma extract_name_is_stripped_text_witness :
  Main.name (Main.extract_customer_info (U := ascii_unicode)
               (lit "Hello" ++ [10%N] ++ lit "Customer Name:  Sarah Johnson  "
                  ++ [10%N] ++ lit "Name: Other"))
  = lit "Sarah Johnson".
Proof.
  destruct (extract_name_is_stripped_text (U := ascii_unicode)
              (lit "Hello" ++ [10%N] ++ lit "Customer Name:  Sarah Johnson  "
                 ++ [10%N] ++ lit "Name: Other")
              [lit "Hello"] (lit "Customer Name:  Sarah Johnson  ")
              [lit "Name: Other"]
              (lit "Customer ") (lit "Name:") (lit "  Sarah Johnson  "))
    as (E & _).
  - vm_compute. reflexivity.
  - intros l [<-|[]]. vm_compute. reflexivity.
  - reflexivity.
  - reflexivity.
  - vm_compute. reflexivity.
  - vm_compute. reflexivity.
  - rewrite E. vm_compute. reflexivity.
Defined.

(** ** [main], again *)

Section RunFacts.
Context {U : Unicode}.
Import Store Display Terms.

Variable draw : nat.
Variable from_env : outcome unit.
Variable create_pool : outcome unit.
Variable init_database : db -> outcome db.
Variable create_ticket_agent : outcome (str -> outcome Main.classification).
Variable clock : nat -> Z.

(** X24: the marker of batch mode travels in band. A run whose ticket
    text is the very string ["ALL_SAMPLES"], typed as the argument or
    entered interactively, is the run of [--all]: the text is not
    processed as a ticket. *)
Theorem main_sentinel_in_band (argv stdin stdin' : list str) (prog : str) (d : db) :
  fst (Main.get_ticket_input draw argv stdin) = lit "ALL_SAMPLES" ->
  App.main draw from_env create_pool init_database create_ticket_agent clock
    argv stdin d
  = App.main draw from_env create_pool init_database create_ticket_agent clock
      [prog; lit "--all"] stdin' d.
Proof.
  intros H. unfold App.main.
  destruct (Main.get_ticket_input draw argv stdin) as [ticket_input rest].
  cbn [fst] in H. subst ticket_input.
  change (Main.get_ticket_input draw [prog; lit "--all"] stdin')
    with (lit "ALL_SAMPLES", stdin').
  reflexivity.
Qed.


End RunFacts.

Lemma main_sentinel_in_band_witness :
  App.main (U := ascii_unicode) 0 (Ok tt) (Ok tt) (fun d => Ok d)
    (Ok Fixtures.billing_agent) (fun i => 100 + Z.of_nat i)
    [lit "main.py"; lit "-i"] [lit "ALL_SAMPLES"; lit " end "; lit "more"]
    Fixtures.two_tickets
  = App.main (U := ascii_unicode) 0 (Ok tt) (Ok tt) (fun d => Ok d)
      (Ok Fixtures.billing_agent) (fun i => 100 + Z.of_nat i)
      [lit "main.py"; lit "--all"] [] Fixtures.two_tickets.
Proof.
  apply (main_sentinel_in_band (U := ascii_unicode)).
  vm_compute. reflexivity.
Defined.


(** ** [main] on all the samples *)

Section BatchRun.
Context {U : Unicode}.
Import Store Display.

Variable draw : nat.
Variable from_env : outcome unit.
Variable create_pool : outcome unit.
Variable init_database : db -> outcome db.
Variable create_ticket_agent : outcome (str -> outcome Main.classification).
Variable clock : nat -> Z.

Lemma clock_increasing :
  (forall i, clock i < clock (S i)) ->
  forall i j, (i < j)%nat -> clock i < clock j.
Proof.
  intros Hstep i j Hij. induction Hij as [|j _ IH].
  - apply Hstep.
  - pose proof (Hstep j). lia.
Qed.

(** The last turn of the loop. *)
Lemma process_all_snoc (agent : str -> outcome Main.classification)
    (l : list str) (x : str) : forall i last d,
  App.process_all clock agent (l ++ [x]) i last d
  = match App.process_all clock agent l i last d with
    | (Ok _, d') =>
        bind (Main.process_single_ticket agent (clock (i + List.length l)) x)
          (fun ticket_id => ret (Some ticket_id)) d'
    | (Raise e, d') => (Raise e, d')
    end.
Proof.
  induction l as [|y l IH]; intros i last d.
  - simpl. now rewrite Nat.add_0_r.
  - cbn [app App.process_all List.length].
    assert (E : forall f : Z -> sql (option Z),
              bind (Main.process_single_ticket agent (clock i) y) f d
              = match Main.process_single_ticket agent (clock i) y d with
                | (Ok a, d') => f a d'
                | (Raise e, d') => (Raise e, d')
                end) by reflexivity.
    rewrite !E.
    destruct (Main.process_single_ticket agent (clock i) y d) as [[tid|e] d1];
      [|reflexivity].
    rewrite IH. now rewrite Nat.add_succ_comm.
Qed.

(** The loop, when it has come to its end. *)
Lemma process_all_returned (agent : str -> outcome Main.classification)
    (l : list str) : forall i last d last' d',
  consistent d ->
  0 < tickets_id_seq d ->
  App.process_all clock agent l i last d = (Ok last', d') ->
  exists added,
    consistent d' /\
    0 < tickets_id_seq d' /\
    tickets d' = tickets d ++ added /\
    List.map t_raw_content added = l /\
    Forall (fun t =>
              exists j, (i <= j < i + List.length l)%nat /\
                        t_created_at t = clock j) added.
Proof.
  induction l as [|x l IH]; intros i last d last' d' Hd Hseq.
  - intros [= <- <-]. exists []. split; [exact Hd|]. split; [exact Hseq|].
    split; [now rewrite app_nil_r|]. split; [reflexivity | constructor].
  - cbn [App.process_all]. unfold bind.
    destruct (process_single_ticket_cases agent (clock i) x d Hd)
      as (r1 & d1 & -> & Hd1 & Hr1).
    destruct r1 as [tid|e]; [|discriminate].
    destruct Hr1 as (cid & output & cat & pri & _ & Htid & _ & _ & Ht & _).
    assert (Hseq1 : 0 < tickets_id_seq d1).
    { pose proof (tickets_below_seq d1 Hd1) as Hb.
      specialize (Hb _ ltac:(rewrite Ht; apply in_or_app; right; left;
                             reflexivity)).
      cbn [t_id] in Hb. lia. }
    intros Hrun.
    destruct (IH (S i) (Some tid) d1 last' d' Hd1 Hseq1 Hrun)
      as (added & Hd' & Hseq' & Ht' & Hraw & Hadded).
    eexists (_ :: added).
    split; [exact Hd'|]. split; [exact Hseq'|].
    split; [rewrite Ht', Ht, <- app_assoc; reflexivity|].
    split; [cbn [List.map t_raw_content]; now rewrite Hraw|].
    constructor.
    + cbn [t_created_at]. exists i. split; [simpl; lia | reflexivity].
    + eapply Forall_impl; [|exact Hadded].
      intros t (j & Hj & Hc). exists j. split; [simpl; lia | exact Hc].
Qed.

(** X26: a run of [main] on all the samples that returns, on a database
    that [init_database] leaves in line with the schema, with positive
    ticket ids and timestamps earlier than those of the run, the clock
    advancing from one turn of the loop to the next: [main] has closed
    the pool, has appended one ticket for each sample, in the order of the
    samples, and has printed one table whose first row is the ticket of
    the last sample, highlighted, no other row being highlighted. *)
Theorem main_all_samples (argv stdin : list str) (d d1 : db) :
  init_database d = Ok d1 ->
  consistent d1 ->
  0 < tickets_id_seq d1 ->
  (forall i, clock i < clock (S i)) ->
  (forall t, In t (tickets d1) -> t_created_at t < clock 0) ->
  fst (Main.get_ticket_input draw argv stdin) = lit "ALL_SAMPLES" ->
  App.result (App.main draw from_env create_pool init_database
                create_ticket_agent clock argv stdin d) = Ok tt ->
  exists title row rows d' added t,
    App.main draw from_env create_pool init_database create_ticket_agent clock
      argv stdin d
    = {| App.console := [Blank; Table title (row :: rows); Blank];
         App.result := Ok tt;
         App.database := d';
         App.pool := App.PoolClosed |} /\
    tickets d' = tickets d1 ++ added ++ [t] /\
    List.map t_raw_content (added ++ [t]) = Main.SAMPLE_TICKETS /\
    cell_id row = str_of_int (t_id t) /\
    row_style row = highlight /\
    Forall (fun r => row_style r = None) rows.
Proof.
  intros Hi Hd Hseq Hstep Hold Hin. unfold App.main.
  destruct (Main.get_ticket_input draw argv stdin) as [ticket_input stdin'].
  cbn [fst] in Hin. subst ticket_input.
  destruct from_env as [u|e]; [|discriminate].
  destruct create_pool as [u'|e]; [|discriminate].
  rewrite Hi.
  destruct create_ticket_agent as [agent|e]; [|discriminate].
  unfold App.process_and_display. rewrite str_eqb_refl.
  change Main.SAMPLE_TICKETS
    with ([Main.sample_1; Main.sample_2; Main.sample_3; Main.sample_4]
            ++ [Main.sample_5]).
  rewrite process_all_snoc.
  destruct (App.process_all clock agent
              [Main.sample_1; Main.sample_2; Main.sample_3; Main.sample_4]
              0 None d1) as [[last4|e] d4] eqn:Hrun4; [|discriminate].
  destruct (process_all_returned agent _ 0 None d1 last4 d4 Hd Hseq Hrun4)
    as (added & Hd4 & Hseq4 & Ht4 & Hraw & Hadded).
  unfold bind.
  change (0 + List.length
                [Main.sample_1; Main.sample_2; Main.sample_3; Main.sample_4])%nat
    with 4%nat.
  destruct (Main.process_single_ticket agent (clock 4) Main.sample_5 d4)
    as [[tid|e] d'] eqn:Hrun5; [|discriminate].
  unfold ret.
  destruct (display_recent_tickets (Some 5) (Some tid) d') as [out r]
    eqn:Hdisp.
  cbn [App.result]. intros ->.
  assert (Hold4 : forall t, In t (tickets d4) -> t_created_at t < clock 4).
  { intros t Ht. rewrite Ht4 in Ht. apply in_app_or in Ht as [Ht|Ht].
    - pose proof (Hold t Ht).
      pose proof (clock_increasing Hstep 0 4 ltac:(lia)). lia.
    - rewrite Forall_forall in Hadded.
      destruct (Hadded t Ht) as (j & Hj & ->).
      apply (clock_increasing Hstep). simpl in Hj. lia. }
  destruct (display_after_process agent (clock 4) Main.sample_5 d4 d' tid out
              Hd4 Hseq4 Hold4 Hrun5 Hdisp)
    as (title & row & rows & t & -> & _ & Ht & Htid & Hraw5 & _ & Hid & _
        & Hstyle & Hrest).
  exists title, row, rows, d', added, t.
  split; [reflexivity|].
  split; [rewrite Ht, Ht4, <- app_assoc; reflexivity|].
  split; [rewrite map_app, Hraw; cbn [List.map]; now rewrite Hraw5|].
  split; [now rewrite Htid|]. split; [exact Hstyle | exact Hrest].
Qed.

End BatchRun.

Lemma main_all_samples_witness :
  exists title row rows d',
    App.main (U := ascii_unicode) 0 (Ok tt) (Ok tt) (fun d => Ok d)
      (Ok Fixtures.billing_agent) (fun i => 100 + Z.of_nat i)
      [lit "main.py"; lit "--all"] [] Fixtures.two_tickets
    = {| App.console :=
           [Display.Blank; Display.Table title (row :: rows); Display.Blank];
         App.result := Ok tt;
         App.database := d';
         App.pool := App.PoolClosed |} /\
    List.map Store.t_raw_content (Store.tickets d')
    = [lit "first"; lit "second"] ++ Main.SAMPLE_TICKETS /\
    Display.cell_id row = lit "7" /\
    Display.row_style row = Display.highlight /\
    Forall (fun r => Display.row_style r = None) rows.
Proof.
  destruct (main_all_samples (U := ascii_unicode) 0 (Ok tt) (Ok tt)
              (fun d => Ok d) (Ok Fixtures.billing_agent)
              (fun i => 100 + Z.of_nat i)
              [lit "main.py"; lit "--all"] []
              Fixtures.two_tickets Fixtures.two_tickets)
    as (title & row & rows & d' & added & t & Hm & Ht & Hraw & Hid & Hs & Hr).
  - reflexivity.
  - exact two_tickets_consistent.
  - reflexivity.
  - intros i. lia.
  - intros t [<-|[<-|[]]]; simpl; lia.
  - reflexivity.
  - vm_compute. reflexivity.
  - exists title, row, rows, d'. split; [exact Hm|].
    split; [rewrite Ht, map_app, Hraw; reflexivity|].
    split; [|split; assumption].
    rewrite Hid. vm_compute in Hm. injection Hm as _ _ _ Hd'.
    rewrite <- Hd' in Ht. vm_compute in Ht.
    injection Ht as Ht. clear -Ht.
    assert (E : Store.t_id t = 7); [|rewrite E; reflexivity].
    destruct added as [|a1 [|a2 [|a3 [|a4 [|a5 [|a6 added]]]]]];
      try discriminate Ht.
    injection Ht as _ _ _ _ <-. reflexivity.
Defined.

(** ** Colours *)

Section ColourFacts.
Context {U : Unicode}.
Import Store Display.

Lemma get_priority_color_label (a : str) (p : priority_enum) :
  lower a = priority_label p ->
  get_priority_color a
  = match p with
    | critical => lit "bright_red"
    | high => lit "red"
    | medium => lit "yellow"
    | low => lit "green"
    end.
Proof.
  intros H. unfold get_priority_color. rewrite H.
  destruct p; vm_compute; reflexivity.
Qed.

(** X27: the colour of a priority tells the priority, up to case. When
    [a] lower-cased is a label of the enumeration, a string has the
    colour of [a] exactly when it is the same label once lower-cased; in
    particular no string outside the labels shares the colour of one. *)
Theorem get_priority_color_identifies (a b : str) (p : priority_enum) :
  lower a = priority_label p ->
  (get_priority_color b = get_priority_color a <-> lower b = priority_label p).
Proof.
  intros Ha. rewrite (get_priority_color_label a p Ha).
  split.
  - unfold get_priority_color. generalize (lower b) as s. intros s.
    cbv zeta. cbn [dict_get].
    destruct (str_eqb (lit "critical") s) eqn:E1.
    { apply str_eqb_eq in E1.
      destruct p; intros H;
        first [exact (eq_sym E1) | vm_compute in H; discriminate H]. }
    destruct (str_eqb (lit "high") s) eqn:E2.
    { apply str_eqb_eq in E2.
      destruct p; intros H;
        first [exact (eq_sym E2) | vm_compute in H; discriminate H]. }
    destruct (str_eqb (lit "medium") s) eqn:E3.
    { apply str_eqb_eq in E3.
      destruct p; intros H;
        first [exact (eq_sym E3) | vm_compute in H; discriminate H]. }
    destruct (str_eqb (lit "low") s) eqn:E4.
    { apply str_eqb_eq in E4.
      destruct p; intros H;
        first [exact (eq_sym E4) | vm_compute in H; discriminate H]. }
    destruct p; intros H; vm_compute in H; discriminate H.
  - intros Hb. apply (get_priority_color_label b p Hb).
Qed.

(** X28: a category is shown in white exactly when, lower-cased, it is
    ["general"] or no label of the enumeration at all: the default of the
    lookup is the colour of one of the labels. *)
Theorem get_category_color_white (category : str) :
  get_category_color category = lit "white"
  <-> (forall c, lower category = category_label c -> c = general).
Proof.
  unfold get_category_color. generalize (lower category) as s. intros s.
  cbv zeta. cbn [dict_get].
  destruct (str_eqb (lit "billing") s) eqn:E1.
  { apply str_eqb_eq in E1. split.
    - intros H. vm_compute in H. discriminate H.
    - intros H. specialize (H billing (eq_sym E1)). discriminate H. }
  destruct (str_eqb (lit "technical") s) eqn:E2.
  { apply str_eqb_eq in E2. split.
    - intros H. vm_compute in H. discriminate H.
    - intros H. specialize (H technical (eq_sym E2)). discriminate H. }
  destruct (str_eqb (lit "feature_request") s) eqn:E3.
  { apply str_eqb_eq in E3. split.
    - intros H. vm_compute in H. discriminate H.
    - intros H. specialize (H feature_request (eq_sym E3)). discriminate H. }
  split; [|destruct (str_eqb (lit "general") s); reflexivity].
  intros _ c Hc. subst s.
  destruct c; first [reflexivity | vm_compute in E1; discriminate E1
                    | vm_compute in E2; discriminate E2
                    | vm_compute in E3; discriminate E3].
Qed.

End ColourFacts.

Lemma get_priority_color_identifies_witness :
  Display.get_priority_color (U := ascii_unicode) (lit "High")
  = Display.get_priority_color (U := ascii_unicode) (lit "HIGH").
Proof.
  apply (get_priority_color_identifies (U := ascii_unicode)
           (lit "HIGH") (lit "High") Store.high);
    vm_compute; reflexivity.
Defined.
